(** * Layer extraction, trimming and batch export (EddyIs/PSD)

    A shallow embedding of [src/services/psdProcessor.ts] (the surface
    materializer [imageDataToCanvas] and the trim engine [trimCanvas]) and of
    the export walk of [src/App.tsx] ([transformName], the selection count,
    [processLevel], [exportAssets]), followed by the properties of section 8
    of the specification.

    The browser objects the code touches (canvas elements, 2d contexts,
    [ImageData], the console) are modelled by a heap of surfaces, a log of the
    calls made on the host and an oracle [Host] that decides which host calls
    fail.  The code is written in a small state-and-exception monad over that
    state, so that [try]/[catch] reads as in the source.

    Numbers are integers: the widths, heights and pixel counts of the code stay
    far below the range in which the arithmetic of the language is exact.
    Names are byte strings. *)

From Stdlib Require Import ZArith List Lia Bool String Ascii.
From stdpp Require Import base option list gmap strings.
Import ListNotations.
Open Scope Z_scope.

(* ================================================================== *)
(** ** The host: canvases, contexts, image data *)
(* ================================================================== *)

Module Dom.

(** One RGBA pixel; every channel is a byte. *)
Record Pixel := mkPixel { red : Z; green : Z; blue : Z; alpha : Z }.

Definition transparent : Pixel := mkPixel 0 0 0 0.

(** The bitmap of a canvas element: [canvas.width], [canvas.height] and the
    pixel under each coordinate.  Only coordinates inside the extent are
    ever read. *)
Record Surface := mkSurface
  { cv_width : Z; cv_height : Z; cv_pixel : Z -> Z -> Pixel }.

Definition blank (w h : Z) : Surface := mkSurface w h (fun _ _ => transparent).

(** A canvas element is a reference into the heap of the document. *)
Abbreviation CanvasId := nat.

(** What [new ImageData(data, w, h)] and [getImageData] give: a flat byte
    array in RGBA order, row after row. *)
Record ImageData := mkImageData
  { id_data : list Z; id_width : Z; id_height : Z }.

(** The classes of exception that the code tells apart in its handlers:
    [RangeError], an [Error] whose message has 'Out of memory', the rest. *)
Inductive Exn := RangeError | OutOfMemory | OtherError.

Inductive LogTag :=
| MemoryGuardRefused      (* console.error: Refused to allocate ... *)
| MemoryExhausted         (* console.warn: Browser memory exhausted ... *)
| UnknownSynthesisError   (* console.error: Unknown error during canvas synthesis *)
| TrimmingFailed.         (* console.warn: Trimming failed, returning raw canvas *)

(** Every call the code makes on the host is logged, whether it succeeds or
    not, so that "was an allocation attempted" can be read off the log. *)
Inductive Call :=
| CreateCanvas (w h : Z)
| GetContext (c : CanvasId)
| NewImageData (w h : Z)
| PutImageData (c : CanvasId)
| GetImageData (c : CanvasId)
| DrawImage (src dst : CanvasId)
| ConsoleError (t : LogTag)
| ConsoleWarn (t : LogTag).

Definition is_allocation (k : Call) : bool :=
  match k with
  | CreateCanvas _ _ | NewImageData _ _ => true
  | _ => false
  end.

Record State := mkState { heap : list Surface; calls : list Call }.

(** The oracle: which host calls raise, and which canvases refuse to give a
    2d context ([getContext] answers [null]). *)
Record Host := mkHost
  { createCanvas_raises : Z -> Z -> option Exn;
    getContext_null : CanvasId -> bool;
    newImageData_raises : Z -> Z -> option Exn;
    putImageData_raises : CanvasId -> option Exn;
    getImageData_raises : CanvasId -> option Exn;
    drawImage_raises : CanvasId -> CanvasId -> option Exn }.

(** *** The monad: state and exceptions *)

Inductive Res (A : Type) := Ok (a : A) | Throw (e : Exn).
Arguments Ok {A} a.
Arguments Throw {A} e.

Definition M (A : Type) : Type := State -> Res A * State.

Definition ret {A} (a : A) : M A := fun st => (Ok a, st).

Definition bind {A B} (m : M A) (k : A -> M B) : M B :=
  fun st =>
    match m st with
    | (Ok a, st') => k a st'
    | (Throw e, st') => (Throw e, st')
    end.

Definition raise {A} (e : Exn) : M A := fun st => (Throw e, st).

(** [try { body } catch (e) { handler e }] *)
Definition try_catch {A} (body : M A) (handler : Exn -> M A) : M A :=
  fun st =>
    match body st with
    | (Ok a, st') => (Ok a, st')
    | (Throw e, st') => handler e st'
    end.

Definition log (k : Call) : M unit :=
  fun st => (Ok tt, mkState (heap st) (calls st ++ [k])).

Definition surfaceOf (st : State) (c : CanvasId) : Surface :=
  default (blank 0 0) (heap st !! c).

(** Reading [canvas.width] and [canvas.height]. *)
Definition readSurface (c : CanvasId) : M Surface :=
  fun st => (Ok (surfaceOf st c), st).

Definition writeSurface (c : CanvasId) (s : Surface) : M unit :=
  fun st => (Ok tt, mkState (<[c := s]> (heap st)) (calls st)).

Definition allocSurface (s : Surface) : M CanvasId :=
  fun st => (Ok (length (heap st)), mkState (heap st ++ [s]) (calls st)).

Definition guard_raise (o : option Exn) : M unit :=
  match o with Some e => raise e | None => ret tt end.

End Dom.

Import Dom.

Declare Scope dom_scope.
Delimit Scope dom_scope with dom.
Notation "x <- m ;; k" := (bind m (fun x => k))
  (at level 100, m at next level, right associativity) : dom_scope.
Notation "m ;;; k" := (bind m (fun _ => k))
  (at level 100, right associativity) : dom_scope.

Module HostOps.
Local Open Scope dom_scope.

(** A width or height assigned to a canvas is an [unsigned long]: a value
    outside [0, 2^31-1] leaves the attribute at its default. *)
Definition canvasDim (dflt v : Z) : Z :=
  if (0 <=? v) && (v <=? 2147483647) then v else dflt.

(** [document.createElement('canvas')] followed by the assignments of
    [width] and [height]: a new element whose bitmap is transparent black. *)
Definition createCanvas (h : Host) (w ht : Z) : M CanvasId :=
  log (CreateCanvas w ht) ;;;
  guard_raise (createCanvas_raises h w ht) ;;;
  allocSurface (blank (canvasDim 300 w) (canvasDim 150 ht)).

(** [canvas.getContext('2d', ...)]: the context is identified with its
    canvas; [None] is the [null] answer. *)
Definition getContext (h : Host) (c : CanvasId) : M (option CanvasId) :=
  log (GetContext c) ;;;
  ret (if getContext_null h c then None else Some c).

(** [new ImageData(data, w, h)]: refuses dimensions that are not positive
    and a buffer whose length is not [4*w*h]; wraps the buffer otherwise. *)
Definition newImageData (h : Host) (data : list Z) (w ht : Z) : M ImageData :=
  log (NewImageData w ht) ;;;
  (if (0 <? w) && (0 <? ht) && (Z.of_nat (length data) =? 4 * w * ht)
   then ret tt else raise OtherError) ;;;
  guard_raise (newImageData_raises h w ht) ;;;
  ret (mkImageData data w ht).

Definition byteAt (data : list Z) (i : Z) : Z := nth (Z.to_nat i) data 0.

Definition pixelOfData (img : ImageData) (x y : Z) : Pixel :=
  let i := (y * id_width img + x) * 4 in
  mkPixel (byteAt (id_data img) i) (byteAt (id_data img) (i + 1))
          (byteAt (id_data img) (i + 2)) (byteAt (id_data img) (i + 3)).

Definition inBox (x y x0 y0 w ht : Z) : bool :=
  (x0 <=? x) && (x <? x0 + w) && (y0 <=? y) && (y <? y0 + ht).

(** [ctx.putImageData(img, dx, dy)]: the pixels of [img] replace those of
    the canvas under the rectangle at [(dx, dy)]. *)
Definition putImageData (h : Host) (ctx : CanvasId) (img : ImageData) (dx dy : Z)
  : M unit :=
  log (PutImageData ctx) ;;;
  guard_raise (putImageData_raises h ctx) ;;;
  s <- readSurface ctx ;;
  writeSurface ctx
    (mkSurface (cv_width s) (cv_height s)
       (fun x y => if inBox x y dx dy (id_width img) (id_height img)
                   then pixelOfData img (x - dx) (y - dy)
                   else cv_pixel s x y)).

Definition channel (p : Pixel) (k : Z) : Z :=
  if k =? 0 then red p else if k =? 1 then green p
  else if k =? 2 then blue p else alpha p.

(** The byte at index [i] of the array read back from a surface of width
    [w]: pixel [i / 4] in row-major order, channel [i mod 4]. *)
Definition surfaceByte (s : Surface) (w : Z) (i : Z) : Z :=
  let p := i / 4 in
  channel (cv_pixel s (p mod w) (p / w)) (i mod 4).

(** [ctx.getImageData(0, 0, w, h).data] *)
Definition getImageData (h : Host) (ctx : CanvasId) (w ht : Z) : M ImageData :=
  log (GetImageData ctx) ;;;
  guard_raise (getImageData_raises h ctx) ;;;
  s <- readSurface ctx ;;
  ret (mkImageData (surfaceByte s w <$> seqZ 0 (4 * w * ht)) w ht).

(** [ctx.drawImage(src, sx, sy, sw, sh, dx, dy, sw, sh)]: the call of the
    code has equal source and destination sizes, so it is an unscaled copy
    of the source rectangle to [(dx, dy)]. *)
Definition drawImage (h : Host) (ctx src : CanvasId) (sx sy sw sh dx dy : Z)
  : M unit :=
  log (DrawImage src ctx) ;;;
  guard_raise (drawImage_raises h src ctx) ;;;
  s <- readSurface src ;;
  d <- readSurface ctx ;;
  writeSurface ctx
    (mkSurface (cv_width d) (cv_height d)
       (fun x y => if inBox x y dx dy sw sh
                   then cv_pixel s (sx + (x - dx)) (sy + (y - dy))
                   else cv_pixel d x y)).

Definition consoleError (t : LogTag) : M unit := log (ConsoleError t).
Definition consoleWarn (t : LogTag) : M unit := log (ConsoleWarn t).

End HostOps.

Import HostOps.

(* ================================================================== *)
(** ** src/services/psdProcessor.ts *)
(* ================================================================== *)

(** A decoded layer as the processor reads it: [layer.canvas],
    [layer.canvasData], [layer.width], [layer.height], [layer.name]. *)
Module RawLayer.
Record t := mk
  { canvas : option CanvasId;
    canvasData : option (list Z);
    width : Z;
    height : Z;
    name : string }.
End RawLayer.

(** The value [{ canvas, width, height }] that [trimCanvas] returns. *)
Module TrimResult.
Record t := mk { canvas : CanvasId; width : Z; height : Z }.
End TrimResult.

(** The argument of [trimCanvas]: an [HTMLCanvasElement] or a raw layer. *)
Inductive TrimInput :=
| InCanvas (c : CanvasId)
| InLayer (layer : RawLayer.t).

Module PsdProcessor.
Local Open Scope dom_scope.

Definition PIXEL_LIMIT : Z := 48000000.

Definition TRIM_LIMIT : Z := 16000000.

Definition isMemoryError (e : Exn) : bool :=
  match e with RangeError | OutOfMemory => true | OtherError => false end.

(** [imageDataToCanvas], psdProcessor.ts lines 11-44. *)
Definition imageDataToCanvas (h : Host) (layer : RawLayer.t) : M (option CanvasId) :=
  match RawLayer.canvas layer with
  | Some c => ret (Some c)
  | None =>
    match RawLayer.canvasData layer with
    | None => ret None
    | Some data =>
      if (RawLayer.width layer =? 0) || (RawLayer.height layer =? 0) then ret None
      else if RawLayer.width layer * RawLayer.height layer >? PIXEL_LIMIT then
        consoleError MemoryGuardRefused ;;; ret None
      else
        try_catch
          (canvas <- createCanvas h (RawLayer.width layer) (RawLayer.height layer) ;;
           ctx <- getContext h canvas ;;
           match ctx with
           | None => ret None
           | Some ctx =>
             imgData <- newImageData h data (RawLayer.width layer) (RawLayer.height layer) ;;
             putImageData h ctx imgData 0 0 ;;;
             ret (Some canvas)
           end)
          (fun e =>
             (if isMemoryError e then consoleWarn MemoryExhausted
              else consoleError UnknownSynthesisError) ;;;
             ret None)
    end
  end.

(** The running bounding box of the scan. *)
Record Bounds := mkBounds
  { minX : Z; minY : Z; maxX : Z; maxY : Z; hasAlpha : bool }.

(** The body of the inner loop, lines 82-89. *)
Definition visit (data : list Z) (width : Z) (y x : Z) (b : Bounds) : Bounds :=
  let alpha := byteAt data ((y * width + x) * 4 + 3) in
  if alpha >? 0 then
    mkBounds (if x <? minX b then x else minX b)
             (if y <? minY b then y else minY b)
             (if x >? maxX b then x else maxX b)
             (if y >? maxY b then y else maxY b)
             true
  else b.

Definition scanRow (data : list Z) (width : Z) (b : Bounds) (y : Z) : Bounds :=
  fold_left (fun b x => visit data width y x b) (seqZ 0 width) b.

(** The two nested loops, lines 76-91. *)
Definition scan (data : list Z) (width height : Z) : Bounds :=
  fold_left (scanRow data width) (seqZ 0 height)
            (mkBounds width height 0 0 false).

(** Lines 93-112 of [trimCanvas]: what follows the loops, given the box
    [b] they end with. *)
Definition cropToBounds (h : Host) (canvas : CanvasId) (width height : Z)
           (b : Bounds) : M (option TrimResult.t) :=
  if negb (hasAlpha b) then ret None
  else
    let croppedWidth := maxX b - minX b + 1 in
    let croppedHeight := maxY b - minY b + 1 in
    if (croppedWidth =? width) && (croppedHeight =? height) then
      ret (Some (TrimResult.mk canvas width height))
    else
      croppedCanvas <- createCanvas h croppedWidth croppedHeight ;;
      croppedCtx <- getContext h croppedCanvas ;;
      match croppedCtx with
      | Some croppedCtx =>
        drawImage h croppedCtx canvas (minX b) (minY b)
                  croppedWidth croppedHeight 0 0
      | None => ret tt
      end ;;;
      ret (Some (TrimResult.mk croppedCanvas croppedWidth croppedHeight)).

(** Lines 113-116: the handler of the [try]. *)
Definition trimFallback (canvas : CanvasId) (e : Exn) : M (option TrimResult.t) :=
  consoleWarn TrimmingFailed ;;;
  s <- readSurface canvas ;;
  ret (Some (TrimResult.mk canvas (cv_width s) (cv_height s))).

(** Lines 51-57: the canvas of the input, materialized when the input is a
    raw layer. *)
Definition inputCanvas (h : Host) (input : TrimInput) : M (option CanvasId) :=
  match input with
  | InCanvas c => ret (Some c)
  | InLayer layer => imageDataToCanvas h layer
  end.

(** [trimCanvas], psdProcessor.ts lines 50-117. *)
Definition trimCanvas (h : Host) (input : TrimInput) : M (option TrimResult.t) :=
  canvas <- inputCanvas h input ;;
  match canvas with
  | None => ret None
  | Some canvas =>
    s <- readSurface canvas ;;
    if (cv_width s =? 0) || (cv_height s =? 0) then ret None
    else if cv_width s * cv_height s >? TRIM_LIMIT then
      ret (Some (TrimResult.mk canvas (cv_width s) (cv_height s)))
    else
      ctx <- getContext h canvas ;;
      match ctx with
      | None => ret None
      | Some ctx =>
        try_catch
          (let width := cv_width s in
           let height := cv_height s in
           imageData <- getImageData h ctx width height ;;
           let data := id_data imageData in
           cropToBounds h canvas width height (scan data width height))
          (trimFallback canvas)
      end
  end.

End PsdProcessor.

Import PsdProcessor.

(** *** Concrete hosts and surfaces used by the examples *)

(** A host on which nothing fails. *)
Definition benignHost : Host :=
  mkHost (fun _ _ => None) (fun _ => false) (fun _ _ => None)
         (fun _ => None) (fun _ => None) (fun _ _ => None).

Definition opaqueAt (x y : Z) : Pixel := mkPixel (10 * x + y) x y 255.

(** A [w] by [h] surface that is opaque inside the rectangle with corners
    [(x0, y0)] and [(x1, y1)] and transparent elsewhere. *)
Definition rectSurface (w h x0 y0 x1 y1 : Z) : Surface :=
  mkSurface w h
    (fun x y => if (x0 <=? x) && (x <=? x1) && (y0 <=? y) && (y <=? y1)
                then opaqueAt x y else transparent).

Definition emptyDom : State := mkState [] [].

Definition domWith (s : Surface) : State := mkState [s] [].


(* ================================================================== *)
(** ** src/types.ts *)
(* ================================================================== *)

Module Types.

(** ['layer' | 'group'] *)
Inductive LayerType := layer | group.

(** [interface PsdLayer].  [opacity], a fraction that the export never
    reads, is left out; [children] is optional as in the interface. *)
#[local] Unset Elimination Schemes.
Inductive PsdLayer := mkPsdLayer
  { id : string;
    name : string;
    type : LayerType;
    visible : bool;
    children : option (list PsdLayer);
    isSelected : bool;
    width : Z;
    height : Z;
    top : Z;
    left : Z }.
#[local] Set Elimination Schemes.

(** [ProcessingState.status] *)
Inductive Status := idle | parsing | trimming | ready | exporting.

End Types.

Import Types.

(* ================================================================== *)
(** ** The archive sink *)
(* ================================================================== *)

(** Modelled from the spec: the archive writer (the JSZip package, a
    dependency that is not part of the sources).  Section 3 makes the archive
    "a mutable folder tree of named binary blobs" and section 6 gives its
    contract: [enterFolder(name) -> scope], [addFile(path, bytes)] within a
    scope, [finalize() -> blob].  A scope is the path of its folder; every
    scope of one archive shares the archive's entries. *)
Module Zip.

Definition Blob := list Z.

Inductive Entry := Dir | File (content : Blob).

(** A scope: the archive object itself has the empty root. *)
Record JSZip := mkZip { root : string }.

Definition newZip : JSZip := mkZip "".

Definition Files := gmap string Entry.

(** [scope.folder(name)]: makes the folder entry if there is none and
    answers the child scope. *)
Definition folder (z : JSZip) (name : string) (fs : Files) : option JSZip * Files :=
  let path := (root z ++ name ++ "/")%string in
  (Some (mkZip path),
   match fs !! path with Some _ => fs | None => <[path := Dir]> fs end).

(** [scope.file(name, blob)]: the entry is stored under the scope's path. *)
Definition file (z : JSZip) (name : string) (b : Blob) (fs : Files) : Files :=
  <[(root z ++ name)%string := File b]> fs.

Definition isFile (e : Entry) : bool :=
  match e with File _ => true | Dir => false end.

(** The paths of the file entries (folders left out). *)
Definition filePaths (fs : Files) : list string :=
  (map_to_list (filter (fun kv => isFile kv.2 = true) fs)).*1.

End Zip.

(* ================================================================== *)
(** ** src/App.tsx: naming transform *)
(* ================================================================== *)

Module Naming.

(** [type NamingStyle] *)
Inductive NamingStyle := original | snake_case | kebab_case | PascalCase.

Definition code (c : ascii) : nat := nat_of_ascii c.

(** The character class of the first regular expression: slash, backslash,
    question mark, percent, star, colon, bar, double quote, angle brackets,
    by character code. *)
Definition isUnsafe (c : ascii) : bool :=
  existsb (Nat.eqb (code c)) [47; 92; 63; 37; 42; 58; 124; 34; 60; 62]%nat.

(** [\s], on the characters of a byte string: tab, line feed, vertical tab,
    form feed, carriage return, space. *)
Definition isSpace (c : ascii) : bool :=
  existsb (Nat.eqb (code c)) [9; 10; 11; 12; 13; 32]%nat.

Definition isUpper (c : ascii) : bool := (65 <=? code c)%nat && (code c <=? 90)%nat.
Definition isLower (c : ascii) : bool := (97 <=? code c)%nat && (code c <=? 122)%nat.
Definition isDigit (c : ascii) : bool := (48 <=? code c)%nat && (code c <=? 57)%nat.

(** [\w] *)
Definition isWord (c : ascii) : bool :=
  isUpper c || isLower c || isDigit c || (code c =? 95)%nat.

Definition toLower (c : ascii) : ascii :=
  if isUpper c then ascii_of_nat (code c + 32) else c.
Definition toUpper (c : ascii) : ascii :=
  if isLower c then ascii_of_nat (code c - 32) else c.

Fixpoint dropSpaces (l : list ascii) : list ascii :=
  match l with
  | c :: r => if isSpace c then dropSpaces r else l
  | [] => []
  end.

(** [String.prototype.trim] *)
Definition trim (l : list ascii) : list ascii :=
  rev (dropSpaces (rev (dropSpaces l))).

(** [.replace(/\s+/g, sep)]: every maximal run of spaces becomes [sep]. *)
Fixpoint replaceSpaces (sep : list ascii) (inRun : bool) (l : list ascii) : list ascii :=
  match l with
  | [] => []
  | c :: r =>
    if isSpace c then (if inRun then [] else sep) ++ replaceSpaces sep true r
    else c :: replaceSpaces sep false r
  end.

(** The replacement of the PascalCase style: in every maximal run of word
    characters the first is put in upper case and the others in lower case. *)
Fixpoint capitalizeWords (inWord : bool) (l : list ascii) : list ascii :=
  match l with
  | [] => []
  | c :: r =>
    if isWord c then (if inWord then toLower c else toUpper c) :: capitalizeWords true r
    else c :: capitalizeWords false r
  end.

(** [transformName], App.tsx lines 51-57. *)
Definition transformName (name : string) (style : NamingStyle) : string :=
  let base := trim (List.map (fun c => if isUnsafe c then "_"%char else c)
                             (list_ascii_of_string name)) in
  string_of_list_ascii
    match style with
    | snake_case => replaceSpaces ["_"%char] false (List.map toLower base)
    | kebab_case => replaceSpaces ["-"%char] false (List.map toLower base)
    | PascalCase => replaceSpaces [] false (capitalizeWords false base)
    | original => base
    end.

End Naming.

Import Naming.

(* ================================================================== *)
(** ** src/App.tsx: the export walk *)
(* ================================================================== *)

Module App.

(** The messages of the status line, by role. *)
Inductive Message :=
| MsgInit | MsgNothingSelected | MsgPacking | MsgDone | MsgInterrupted.

(** What the export makes observable, in order: the state updates, the
    alert, the calls on the archive sink, the pauses, the download. *)
Inductive Output :=
| SetState (status : Status) (progress : Z) (message : Message)
| Progress (processedCount totalLayers : nat) (layerName : string)
    (* setState exporting, processedCount / totalLayers * 100 *)
| Alert
| ZipFolder (path : string)
| ZipFile (path : string)
| ZipGenerate
| Yield (ms : Z)
| Download.

Definition isSinkCall (o : Output) : bool :=
  match o with
  | ZipFolder _ | ZipFile _ | ZipGenerate => true
  | _ => false
  end.

(** The [processedCount] of the progress updates, in order. *)
Definition processedCounts (os : list Output) : list nat :=
  omap (fun o => match o with Progress n _ _ => Some n | _ => None end) os.

Record Export := mkExport
  { dom : Dom.State; files : Zip.Files; out : list Output }.

Definition emit (o : Output) (st : Export) : Export :=
  mkExport (dom st) (files st) (out st ++ [o]).

(** What the walk needs from its surroundings: the host of the processor,
    the PNG encoder behind [canvas.toBlob] ([None] is the [null] blob) and
    the serializer behind [zip.generateAsync] ([None]: the promise is
    rejected). *)
Record Env := mkEnv
  { host : Host;
    toBlob : Surface -> option Zip.Blob;
    generateAsync : Zip.Files -> option Zip.Blob }.

(** The three versions of [exportAssets] in the sources differ in the
    points below; everything else is shared.
    - [src/App.tsx] 120-175: files are written with [zip.file] (the root
      object), a pause of 10 ms every 5 layers, the zero check, the whole
      body under one [try] whose handler sets [ready]/100.
    - [src/unnamed/part_000] 589-655: files are written with
      [currentZip.file], a pause of 40 ms every 5 layers, no zero check,
      packing announced at 95, a [try] around the finalization whose
      handler sets [idle]/0.
    - [src/unnamed/part_001] 115-172: files are written with [zip.file],
      a pause of 16 ms every 3 layers, the zero check, no handler around
      the finalization. *)
Record Variant := mkVariant
  { fileIntoCurrent : bool;
    yieldEvery : nat;
    yieldMs : Z;
    abortOnZero : bool;
    packingProgress : Z;
    onFinalizeFailure : option (Status * Z) }.

Definition appTsx : Variant := mkVariant false 5 10 true 99 (Some (ready, 100)).
Definition part000 : Variant := mkVariant true 5 40 false 95 (Some (idle, 0)).
Definition part001 : Variant := mkVariant false 3 16 true 99 None.

(** The counter [selected] of the statistics effect (App.tsx 37-49), which
    is [countSelected] of part_001 123-129: one for each node of type
    ['layer'] that is selected, through the children of every node. *)
Fixpoint countLayer (l : PsdLayer) (acc : nat) : nat :=
  let acc := if isSelected l then
               match type l with layer => S acc | group => acc end
             else acc in
  match children l with
  | Some cs => fold_left (fun a c => countLayer c a) cs acc
  | None => acc
  end.

Definition countSelected (list : list PsdLayer) : nat :=
  fold_left (fun a c => countLayer c a) list 0%nat.

(** [trimCanvas] as the walk sees it: a result or [null]. *)
Definition runTrim (h : Host) (raw : RawLayer.t) (d : Dom.State)
  : option TrimResult.t * Dom.State :=
  match trimCanvas h (InLayer raw) d with
  | (Ok r, d') => (r, d')
  | (Throw _, d') => (None, d')
  end.

Section Walk.
Variable v : Variant.
Variable env : Env.
Variable layerMap : gmap string RawLayer.t.
Variable namingStyle : NamingStyle.
Variable useFolderPrefix : bool.
Variable totalLayers : nat.
(** The root archive object, [zip] in the closure. *)
Variable zip : Zip.JSZip.

(** The branch of a selected layer whose raw record is in the lookup
    table, App.tsx 146-157. *)
Definition processLeaf (l : PsdLayer) (cleanName : string) (raw : RawLayer.t)
           (currentZip : Zip.JSZip) (prefixPath : string)
           (acc : nat * Export) : nat * Export :=
  let processedCount := S acc.1 in
  let st := emit (Progress processedCount totalLayers (name l)) acc.2 in
  let '(trimmed, d) := runTrim (host env) raw (dom st) in
  let st := mkExport d (files st) (out st) in
  let st :=
    match trimmed with
    | Some trimmed =>
      match toBlob env (surfaceOf d (TrimResult.canvas trimmed)) with
      | Some blob =>
        let target := if fileIntoCurrent v then currentZip else zip in
        let fileName := (prefixPath ++ cleanName ++ ".png")%string in
        emit (ZipFile (Zip.root target ++ fileName))
             (mkExport (dom st) (Zip.file target fileName blob (files st)) (out st))
      | None => st
      end
    | None => st
    end in
  (processedCount,
   if (processedCount mod yieldEvery v =? 0)%nat then emit (Yield (yieldMs v)) st
   else st).

(** One turn of the loop of [processLevel], App.tsx 136-160. *)
Fixpoint processLayer (l : PsdLayer) (currentZip : Zip.JSZip)
         (prefixPath : string) (acc : nat * Export) {struct l} : nat * Export :=
  let cleanName := transformName (name l) namingStyle in
  match type l with
  | group =>
    let '(folder, fs) := Zip.folder currentZip cleanName (files acc.2) in
    let acc := (acc.1, emit (ZipFolder (Zip.root currentZip ++ cleanName))
                            (mkExport (dom acc.2) fs (out acc.2))) in
    match children l, folder with
    | Some cs, Some folder =>
      fold_left
        (fun a c =>
           processLayer c folder
             (if useFolderPrefix then (prefixPath ++ cleanName ++ "_")%string
              else ""%string) a)
        cs acc
    | _, _ => acc
    end
  | layer =>
    if isSelected l then
      match layerMap !! id l with
      | Some raw => processLeaf l cleanName raw currentZip prefixPath acc
      | None => acc
      end
    else acc
  end.

(** [processLevel(list, currentZip, prefixPath)] *)
Definition processLevel (list : list PsdLayer) (currentZip : Zip.JSZip)
           (prefixPath : string) (acc : nat * Export) : nat * Export :=
  fold_left (fun a c => processLayer c currentZip prefixPath a) list acc.

End Walk.

(** How a call of [exportAssets] ends. *)
Inductive Outcome :=
| ReturnedAtOnce          (* no document: the first line returns *)
| NothingSelected         (* the zero check *)
| Exported (content : Zip.Blob)
| ExportFailed            (* the handler of the finalization ran *)
| Rejected.               (* the finalization failed with no handler *)

(** [exportAssets], App.tsx 120-175. *)
Definition exportAssets (v : Variant) (env : Env) (layerMap : gmap string RawLayer.t)
           (namingStyle : NamingStyle) (useFolderPrefix : bool)
           (layers : list PsdLayer) (st : Export) : Outcome * Export :=
  match layers with
  | [] => (ReturnedAtOnce, st)
  | _ =>
    let st := emit (SetState exporting 0 MsgInit) st in
    let zip := Zip.newZip in
    let st := mkExport (dom st) ∅ (out st) in
    let totalLayers := countSelected layers in
    if abortOnZero v && (totalLayers =? 0)%nat then
      (NothingSelected, emit (SetState ready 100 MsgNothingSelected) (emit Alert st))
    else
      let '(_, st) := processLevel v env layerMap namingStyle useFolderPrefix
                                   totalLayers zip layers zip "" (0%nat, st) in
      let st := emit (SetState exporting (packingProgress v) MsgPacking) st in
      let st := emit ZipGenerate st in
      match generateAsync env (files st) with
      | Some content =>
        (Exported content, emit (SetState ready 100 MsgDone) (emit Download st))
      | None =>
        match onFinalizeFailure v with
        | Some (status, progress) =>
          (ExportFailed, emit (SetState status progress MsgInterrupted) st)
        | None => (Rejected, st)
        end
      end
  end.

End App.

Import App.

(** *** The tree of the folder-mirroring property *)

Definition leafNode (i n : string) (sel : bool) : PsdLayer :=
  mkPsdLayer i n layer true None sel 1 1 0 0.

Definition groupNode (i n : string) (cs : list PsdLayer) : PsdLayer :=
  mkPsdLayer i n group true (Some cs) false 0 0 0 0.

(** [Root{ GroupA{ leaf1(selected), leaf2(unselected) }, leaf3(selected) }]:
    the root is the document, its children are the top-level list. *)
Definition mirrorTree : list PsdLayer :=
  [ groupNode "g" "GroupA" [ leafNode "l1" "leaf1" true; leafNode "l2" "leaf2" false ];
    leafNode "l3" "leaf3" true ].

(** A one-pixel opaque raw layer. *)
Definition dotLayer (n : string) : RawLayer.t :=
  RawLayer.mk None (Some [200; 100; 50; 255]) 1 1 n.

Definition mirrorMap : gmap string RawLayer.t :=
  <["l1" := dotLayer "leaf1"]> (<["l2" := dotLayer "leaf2"]> (<["l3" := dotLayer "leaf3"]> ∅)).

(** An environment in which nothing fails; the encoder is a stand-in that
    keeps the size and the first pixel. *)
Definition benignEnv : Env :=
  mkEnv benignHost
        (fun s => if (cv_width s =? 0) || (cv_height s =? 0) then None
                  else Some [cv_width s; cv_height s; alpha (cv_pixel s 0 0)])
        (fun fs => Some [Z.of_nat (size fs)]).

Definition emptyExport : Export := mkExport emptyDom ∅ [].

(** *** The notions of the specification *)

(** The selected leaves of a tree, in walk order: the nodes of type ['layer']
    with [isSelected], in the top-level list and under the groups. *)
Fixpoint selectedLeavesOf (l : PsdLayer) : list PsdLayer :=
  match type l with
  | layer => if isSelected l then [l] else []
  | group =>
    match children l with
    | Some cs => flat_map selectedLeavesOf cs
    | None => []
    end
  end.

Definition selectedLeaves (layers : list PsdLayer) : list PsdLayer :=
  flat_map selectedLeavesOf layers.

(** The invariant of the data model: only groups have children. *)
Fixpoint wellFormedLayer (l : PsdLayer) : bool :=
  match children l with
  | Some cs =>
    match type l with group => forallb wellFormedLayer cs | layer => false end
  | None => true
  end.

Definition wellFormed (layers : list PsdLayer) : bool :=
  forallb wellFormedLayer layers.

(** The alpha byte of a pixel of a surface. *)
Definition alphaAt (s : Surface) (x y : Z) : Z := alpha (cv_pixel s x y).

Definition inExtent (s : Surface) (x y : Z) : Prop :=
  0 <= x < cv_width s /\ 0 <= y < cv_height s.

(** [(x0, y0)]..[(x1, y1)] is the bounding box of the pixels of [s] whose
    alpha byte is not zero: it contains all of them and each of its four
    sides touches one. *)
Definition isBoundingBox (s : Surface) (x0 y0 x1 y1 : Z) : Prop :=
  (forall x y, inExtent s x y -> 0 < alphaAt s x y ->
               x0 <= x <= x1 /\ y0 <= y <= y1) /\
  (exists y, inExtent s x0 y /\ 0 < alphaAt s x0 y) /\
  (exists y, inExtent s x1 y /\ 0 < alphaAt s x1 y) /\
  (exists x, inExtent s x y0 /\ 0 < alphaAt s x y0) /\
  (exists x, inExtent s x y1 /\ 0 < alphaAt s x y1).

(** *** The scan as one pass *)

(** The array that [getImageData] reads back from a whole surface. *)
Definition readBack (s : Surface) : list Z :=
  surfaceByte s (cv_width s) <$> seqZ 0 (4 * cv_width s * cv_height s).

(** The test of the inner loop at the pixel [(x, y)]. *)
Definition seen (data : list Z) (width : Z) (y x : Z) : Prop :=
  byteAt data ((y * width + x) * 4 + 3) > 0.

(** The loops as one pass over the list of the coordinates visited. *)
Definition scanList (data : list Z) (width : Z) (l : list (Z * Z)) (b : Bounds) : Bounds :=
  fold_left (fun b p => visit data width p.1 p.2 b) l b.

(** The coordinates in the order of the two loops. *)
Definition coords (width height : Z) : list (Z * Z) :=
  flat_map (fun y => List.map (fun x => (y, x)) (seqZ 0 width)) (seqZ 0 height).

(** What one pass over [l] establishes, from any starting box [b]. *)
Record PassSpec (data : list Z) (width : Z) (l : list (Z * Z)) (b b' : Bounds) : Prop :=
  mkPassSpec
  { ps_cover : forall y x, In (y, x) l -> seen data width y x ->
      hasAlpha b' = true /\ minX b' <= x <= maxX b' /\ minY b' <= y <= maxY b';
    ps_mono : minX b' <= minX b /\ minY b' <= minY b /\
              maxX b <= maxX b' /\ maxY b <= maxY b' /\
              (hasAlpha b = true -> hasAlpha b' = true);
    ps_minX : minX b' = minX b \/
              exists y, In (y, minX b') l /\ seen data width y (minX b');
    ps_maxX : maxX b' = maxX b \/
              exists y, In (y, maxX b') l /\ seen data width y (maxX b');
    ps_minY : minY b' = minY b \/
              exists x, In (minY b', x) l /\ seen data width (minY b') x;
    ps_maxY : maxY b' = maxY b \/
              exists x, In (maxY b', x) l /\ seen data width (maxY b') x;
    ps_none : (forall y x, In (y, x) l -> ~ seen data width y x) -> b' = b }.

(** *** Assumptions on the host *)

(** A host on which no call raises and every canvas gives its 2d context. *)
Definition benign (h : Host) : Prop :=
  (forall w ht, createCanvas_raises h w ht = None) /\
  (forall c, getContext_null h c = false) /\
  (forall w ht, newImageData_raises h w ht = None) /\
  (forall c, putImageData_raises h c = None) /\
  (forall c, getImageData_raises h c = None) /\
  (forall src dst, drawImage_raises h src dst = None).


(** A host whose only failure is the copy of [drawImage]. *)
Definition blitFailsHost : Host :=
  mkHost (fun _ _ => None) (fun _ => false) (fun _ _ => None)
         (fun _ => None) (fun _ => None) (fun _ _ => Some OutOfMemory).

(** A host on which a new canvas gives no context: [getContext] answers
    [null] for every canvas but the first. *)
Definition noContextHost : Host :=
  mkHost (fun _ _ => None) (fun c => negb (c =? 0)%nat) (fun _ _ => None)
         (fun _ => None) (fun _ => None) (fun _ _ => None).

(** Exactly the pixels of the rectangle with corners [(x0, y0)] and
    [(x1, y1)], which lies in the surface, have a nonzero alpha byte; every
    other pixel has alpha zero. *)
Definition onlyRectangleVisible (s : Surface) (x0 y0 x1 y1 : Z) : Prop :=
  (0 <= x0 <= x1 /\ x1 < cv_width s) /\ (0 <= y0 <= y1 /\ y1 < cv_height s) /\
  forall x y, inExtent s x y ->
    (x0 <= x <= x1 /\ y0 <= y <= y1 -> 0 < alphaAt s x y) /\
    (~ (x0 <= x <= x1 /\ y0 <= y <= y1) -> alphaAt s x y = 0).

(** The surface that the copy of [trimCanvas] produces from [s] for the box
    that starts at [(x0, y0)] and measures [cw] by [ch]. *)
Definition cropped (s : Surface) (x0 y0 cw ch : Z) : Surface :=
  mkSurface cw ch
    (fun x y => if inBox x y 0 0 cw ch
                then cv_pixel s (x0 + (x - 0)) (y0 + (y - 0))
                else transparent).


(** An oversized layer without a ready-made canvas, and one with. *)
Definition oversizedLayer : RawLayer.t :=
  RawLayer.mk None (Some []) 8000 8000 "huge".

Definition oversizedReadyLayer : RawLayer.t :=
  RawLayer.mk (Some 0%nat) None 8000 8000 "huge".

(** The outputs that are neither a progress update nor the finalization. *)
Definition quiet (made : list Output) : Prop :=
  processedCounts made = [] /\ ~ In ZipGenerate made.

(** The raw record of a layer is in the lookup table. *)
Definition hasPayload (layerMap : gmap string RawLayer.t) (l : PsdLayer) : Prop :=
  is_Some (layerMap !! id l).

(** From the accumulator [acc] to [r] the walk has processed [k] layers: the
    counter went up by [k] and the counts published are the next [k]
    numbers; the finalization was not requested. *)
Definition Publishes (acc : nat * Export) (k : nat) (r : nat * Export) : Prop :=
  r.1 = (acc.1 + k)%nat /\
  exists made,
    out r.2 = out acc.2 ++ made /\
    processedCounts made = seq (S acc.1) k /\
    ~ In ZipGenerate made.

(** *** The surface of a materialized layer *)



(** *** Properties of names *)

Definition chars (s : string) : list ascii := list_ascii_of_string s.

(** No character of the name is one that the transform replaces. *)
Definition unsafeFree (s : string) : bool :=
  forallb (fun c => negb (isUnsafe c)) (chars s).



(** The name has no slash: as a path it names an entry of the scope itself. *)
Definition slashFree (s : string) : bool :=
  forallb (fun c => negb (code c =? 47)%nat) (chars s).

(** No space at either end. *)
Definition trimmed (s : string) : bool :=
  match chars s, rev (chars s) with
  | c :: _, d :: _ => negb (isSpace c) && negb (isSpace d)
  | _, _ => true
  end.

(* ================================================================== *)
(** ** src/App.tsx: the statistics, the selection toggle, the loader *)
(* ================================================================== *)

(** The state [stats]: [{ total, selected, groups }]. *)
Record Stats := mkStats { total : nat; selected : nat; groups : nat }.

(** One turn of the loop of [count], App.tsx 40-45. *)
Fixpoint countNode (l : PsdLayer) (acc : Stats) : Stats :=
  let acc := match type l with
             | group => mkStats (total acc) (selected acc) (S (groups acc))
             | layer => mkStats (S (total acc)) (selected acc) (groups acc)
             end in
  let acc := if isSelected l then
               match type l with
               | layer => mkStats (total acc) (S (selected acc)) (groups acc)
               | group => acc
               end
             else acc in
  match children l with
  | Some cs => fold_left (fun a c => countNode c a) cs acc
  | None => acc
  end.

(** The effect of App.tsx 37-49: [count(layers)] from three zeros. *)
Definition count (layers : list PsdLayer) : Stats :=
  fold_left (fun a c => countNode c a) layers (mkStats 0 0 0).

(** The number of nodes of a tree, through the children of every node. *)
Fixpoint nodesOf (l : PsdLayer) : nat :=
  S (match children l with
     | Some cs => list_sum (List.map nodesOf cs)
     | None => 0
     end).

Definition nodes (layers : list PsdLayer) : nat := list_sum (List.map nodesOf layers).

(** The helper [u] of [toggleSelect], App.tsx 191: the node and everything
    under it get the selection [n]. *)
Fixpoint setAll (n : bool) (x : PsdLayer) : PsdLayer :=
  mkPsdLayer (id x) (name x) (type x) (visible x)
             (match children x with
              | Some cs => Some (List.map (setAll n) cs)
              | None => None
              end)
             n (width x) (height x) (top x) (left x).

(** One turn of [update], App.tsx 188-196. *)
Fixpoint updateLayer (target : string) (l : PsdLayer) : PsdLayer :=
  if String.eqb (id l) target then
    let n := negb (isSelected l) in
    mkPsdLayer (id l) (name l) (type l) (visible l)
               (match children l with
                | Some cs => Some (List.map (setAll n) cs)
                | None => None
                end)
               n (width l) (height l) (top l) (left l)
  else
    match children l with
    | Some cs =>
      mkPsdLayer (id l) (name l) (type l) (visible l)
                 (Some (List.map (updateLayer target) cs))
                 (isSelected l) (width l) (height l) (top l) (left l)
    | None => l
    end.

(** [toggleSelect(id)], App.tsx 186-199, as the function from the old tree
    to the new one. *)
Definition toggleSelect (target : string) (layers : list PsdLayer) : list PsdLayer :=
  List.map (updateLayer target) layers.

(** The identifiers of a tree, through the children of every node. *)
Fixpoint idsOf (l : PsdLayer) : list string :=
  id l :: match children l with
          | Some cs => flat_map idsOf cs
          | None => []
          end.

(** The leaves that the export walk can reach under a node, selected or not. *)
Fixpoint leavesOf (l : PsdLayer) : list PsdLayer :=
  match type l with
  | layer => [l]
  | group =>
    match children l with
    | Some cs => flat_map leavesOf cs
    | None => []
    end
  end.

(** No node with the identifier [target] has a child. *)
Fixpoint targetChildless (target : string) (l : PsdLayer) : bool :=
  match children l with
  | Some cs =>
    (negb (String.eqb (id l) target) || match cs with [] => true | _ :: _ => false end)
    && forallb (targetChildless target) cs
  | None => true
  end.

(** A layer as the decoder gives it, with the fields that [transformLayers]
    and the processor read; a field that may be missing is an option. *)
#[local] Unset Elimination Schemes.
Inductive AgLayer := mkAgLayer
  { ag_name : option string;
    ag_visible : option bool;
    ag_children : option (list AgLayer);
    ag_width : option Z;
    ag_height : option Z;
    ag_top : option Z;
    ag_left : option Z;
    ag_canvas : option CanvasId;
    ag_canvasData : option (list Z) }.
#[local] Set Elimination Schemes.

(** The record of the decoder as the processor reads it: a missing width or
    height is falsy, as zero is. *)
Definition rawOf (l : AgLayer) : RawLayer.t :=
  RawLayer.mk (ag_canvas l) (ag_canvasData l)
              (default 0 (ag_width l)) (default 0 (ag_height l))
              (default ""%string (ag_name l)).

(** [l.name || <default name>] *)
Definition nameOr (dflt : string) (n : option string) : string :=
  match n with
  | Some s => if String.eqb s "" then dflt else s
  | None => dflt
  end.

(** [l.visible !== false] *)
Definition isVisible (l : AgLayer) : bool :=
  match ag_visible l with Some false => false | _ => true end.

(** The body of the [map] of [transformLayers], App.tsx 88-104.  The n-th
    identifier drawn from [Math.random] is [randomId n]; the state is the
    number of identifiers drawn and the lookup table [layerMapRef]. *)
Fixpoint transformLayer (randomId : nat -> string) (dfltName : string) (l : AgLayer)
         (st : nat * gmap string RawLayer.t) {struct l}
  : PsdLayer * (nat * gmap string RawLayer.t) :=
  let i := randomId st.1 in
  let st := (S st.1, <[i := rawOf l]> st.2) in
  match ag_children l with
  | Some cs =>
    let r := (fix go (cs : list AgLayer) (st : nat * gmap string RawLayer.t)
                : list PsdLayer * (nat * gmap string RawLayer.t) :=
                match cs with
                | [] => ([], st)
                | c :: rest =>
                  let r1 := transformLayer randomId dfltName c st in
                  let r2 := go rest r1.2 in
                  (r1.1 :: r2.1, r2.2)
                end) cs st in
    (mkPsdLayer i (nameOr dfltName (ag_name l)) group (isVisible l) (Some r.1) false
                (default 0 (ag_width l)) (default 0 (ag_height l))
                (default 0 (ag_top l)) (default 0 (ag_left l)),
     r.2)
  | None =>
    (mkPsdLayer i (nameOr dfltName (ag_name l)) layer (isVisible l) None (isVisible l)
                (default 0 (ag_width l)) (default 0 (ag_height l))
                (default 0 (ag_top l)) (default 0 (ag_left l)),
     st)
  end.

(** [transformLayers(psdLayers)] *)
Fixpoint transformLayers (randomId : nat -> string) (dfltName : string)
         (ls : list AgLayer) (st : nat * gmap string RawLayer.t)
  : list PsdLayer * (nat * gmap string RawLayer.t) :=
  match ls with
  | [] => ([], st)
  | c :: rest =>
    let r1 := transformLayer randomId dfltName c st in
    let r2 := transformLayers randomId dfltName rest r1.2 in
    (r1.1 :: r2.1, r2.2)
  end.

(** All the nodes of a tree, in the order of the loader. *)
Fixpoint allNodesOf (l : PsdLayer) : list PsdLayer :=
  l :: match children l with
       | Some cs => flat_map allNodesOf cs
       | None => []
       end.

(** The visible layers without children of a decoded tree. *)
Fixpoint visibleLeavesOf (l : AgLayer) : nat :=
  match ag_children l with
  | Some cs => list_sum (List.map visibleLeavesOf cs)
  | None => if isVisible l then 1 else 0
  end.

(** Examples: a decoded document and a stream of identifiers. *)
Definition agLeaf (n : string) (v : option bool) : AgLayer :=
  mkAgLayer (Some n) v None (Some 1) (Some 1) None None None (Some [9; 9; 9; 255]).

Definition agGroup (n : string) (cs : list AgLayer) : AgLayer :=
  mkAgLayer (Some n) None (Some cs) None None None None None None.

Definition agDocument : list AgLayer :=
  [ agGroup "GroupA" [ agLeaf "leaf1" None; agLeaf "leaf2" (Some false) ];
    agLeaf "leaf3" (Some true) ].

Definition idStream (n : nat) : string :=
  String (ascii_of_nat (97 + n)) EmptyString.

(** What the loader establishes from the state [st] to the state [st'],
    having made the nodes [made]: they are well formed, the table keeps the
    keys it had and holds a record for every node made, the selected leaves
    number [visibleLeaves], and one identifier was drawn for each node. *)
Record Loaded (st : nat * gmap string RawLayer.t) (made : list PsdLayer)
       (st' : nat * gmap string RawLayer.t) (visibleLeaves : nat) : Prop := mkLoaded
  { ld_wf : forallb wellFormedLayer made = true;
    ld_keeps : forall k, is_Some (st.2 !! k) -> is_Some (st'.2 !! k);
    ld_nodes : Forall (hasPayload st'.2) (flat_map allNodesOf made);
    ld_count : length (flat_map selectedLeavesOf made) = visibleLeaves;
    ld_drawn : st'.1 = (st.1 + list_sum (List.map nodesOf made))%nat }.

(** *** What the walk keeps *)

Definition hasPayloadb (m : gmap string RawLayer.t) (l : PsdLayer) : bool :=
  match m !! id l with Some _ => true | None => false end.

(** The selected leaves that the walk processes: those whose raw record is
    in the lookup table. *)
Definition processedLeaves (m : gmap string RawLayer.t) (layers : list PsdLayer)
  : list PsdLayer :=
  List.filter (hasPayloadb m) (selectedLeaves layers).

Definition isYield (o : Output) : bool :=
  match o with Yield _ => true | _ => false end.

(** A progress update carries the total [total]. *)
Definition progressTotal (total : nat) (o : Output) : Prop :=
  match o with Progress _ t _ => t = total | _ => True end.

(** The path of a folder entry ends with a slash. *)
Definition isFolderPath (k : string) : bool :=
  match rev (chars k) with
  | c :: _ => (code c =? 47)%nat
  | [] => false
  end.

(** Every entry under the path of a folder is a folder entry. *)
Definition foldersAreDirs (fs : Zip.Files) : Prop :=
  forall p e, isFolderPath p = true -> fs !! p = Some e -> e = Zip.Dir.

(** From the accumulator [acc] to [r] the walk has processed [k] layers. *)
Record Walked (v : Variant) (total : nat) (acc : nat * Export) (k : nat)
       (r : nat * Export) : Prop := mkWalked
  { wk_count : r.1 = (acc.1 + k)%nat;
    wk_out : exists made,
        out r.2 = out acc.2 ++ made /\
        processedCounts made = seq (S acc.1) k /\
        ~ In ZipGenerate made /\
        Forall (progressTotal total) made /\
        length (List.filter isYield made)
          = (r.1 / yieldEvery v - acc.1 / yieldEvery v)%nat;
    wk_heap : heap (dom acc.2) `prefix_of` heap (dom r.2);
    wk_dirs : forall p, isFolderPath p = true ->
                        files acc.2 !! p = Some Zip.Dir -> files r.2 !! p = Some Zip.Dir;
    wk_inv : foldersAreDirs (files acc.2) -> foldersAreDirs (files r.2) }.

(** *** The layout of the archive *)

(** The file entries of the archive sit at its root: no path has a slash. *)
Definition filesAtRoot (fs : Zip.Files) : Prop :=
  forall q b, fs !! q = Some (Zip.File b) -> slashFree q = true.

(** [d] is the root of the archive or the path of a folder it holds. *)
Definition heldFolder (fs : Zip.Files) (d : string) : Prop :=
  d = ""%string \/ (isFolderPath d = true /\ fs !! d = Some Zip.Dir).

(** Every file entry is directly in the root or directly in a folder that
    the archive holds. *)
Definition filesInFolders (fs : Zip.Files) : Prop :=
  forall q b, fs !! q = Some (Zip.File b) ->
              exists d n, q = (d ++ n)%string /\ slashFree n = true /\ heldFolder fs d.


(* ================================================================== *)
(** ** Properties of the host operations *)
(* ================================================================== *)

(** The byte read back at the alpha index of an in-range pixel is the alpha
    of that pixel of the surface. *)
Lemma byteAt_tabulate (f : Z -> Z) (n i : Z) :
  0 <= i < n -> byteAt (f <$> seqZ 0 n) i = f i.
Proof.
  intros Hi. unfold byteAt. rewrite nth_lookup, list_lookup_fmap.
  rewrite lookup_seqZ_lt by lia. simpl. f_equal. lia.
Qed.

Lemma pixel_index (w x y k : Z) :
  0 <= x < w -> 0 <= y -> 0 <= k < 4 ->
  ((y * w + x) * 4 + k) / 4 = y * w + x /\
  ((y * w + x) * 4 + k) mod 4 = k /\
  (y * w + x) mod w = x /\ (y * w + x) / w = y.
Proof.
  intros Hx Hy Hk. split; [|split; [|split]].
  - symmetry. apply (Z.div_unique _ 4 _ k); lia.
  - symmetry. apply (Z.mod_unique _ 4 (y * w + x) k); lia.
  - symmetry. apply (Z.mod_unique _ w y x); lia.
  - symmetry. apply (Z.div_unique _ w _ x); lia.
Qed.

Lemma alpha_of_imageData (s : Surface) (w ht x y : Z) :
  0 <= x < w -> 0 <= y < ht ->
  byteAt (surfaceByte s w <$> seqZ 0 (4 * w * ht)) ((y * w + x) * 4 + 3)
  = alphaAt s x y.
Proof.
  intros Hx Hy. rewrite byteAt_tabulate by nia.
  unfold surfaceByte, alphaAt.
  destruct (pixel_index w x y 3) as (-> & -> & -> & ->); try lia.
  reflexivity.
Qed.

(* ================================================================== *)
(** ** The scan computes the bounding box *)
(* ================================================================== *)

Section Scan.
Variable data : list Z.
Variable width : Z.

#[local] Abbreviation seen := (seen data width).
#[local] Abbreviation scanList := (scanList data width).
#[local] Abbreviation coords := (coords width).
#[local] Abbreviation PassSpec := (PassSpec data width).

Lemma visit_cases (y x : Z) (b : Bounds) :
  (seen y x /\
   visit data width y x b =
     mkBounds (Z.min x (minX b)) (Z.min y (minY b))
              (Z.max x (maxX b)) (Z.max y (maxY b)) true)
  \/ (~ seen y x /\ visit data width y x b = b).
Proof.
  unfold visit, seen.
  destruct (Z.gtb_spec (byteAt data ((y * width + x) * 4 + 3)) 0) as [Hp|Hn].
  - left. split; [lia|].
    f_equal.
    + destruct (Z.ltb_spec x (minX b)); lia.
    + destruct (Z.ltb_spec y (minY b)); lia.
    + destruct (Z.gtb_spec x (maxX b)); lia.
    + destruct (Z.gtb_spec y (maxY b)); lia.
  - right. split; [lia|reflexivity].
Qed.

Lemma scanList_spec (l : list (Z * Z)) :
  forall b, PassSpec l b (scanList l b).
Proof.
  induction l as [|[y x] l IH]; intros b.
  - constructor; simpl; try tauto; auto.
    repeat split; auto; lia.
  - specialize (IH (visit data width y x b)).
    change (scanList ((y, x) :: l) b) with (scanList l (visit data width y x b)).
    destruct IH as [Hc Hm Hx0 Hx1 Hy0 Hy1 Hn].
    set (b1 := visit data width y x b) in *.
    set (b' := scanList l b1) in *.
    destruct (visit_cases y x b) as [[Hs Hv]|[Hs Hv]]; fold b1 in Hv.
    + assert (E : minX b1 = Z.min x (minX b) /\ minY b1 = Z.min y (minY b) /\
                  maxX b1 = Z.max x (maxX b) /\ maxY b1 = Z.max y (maxY b) /\
                  hasAlpha b1 = true) by (rewrite Hv; simpl; auto).
      destruct E as (E1 & E2 & E3 & E4 & E5).
      destruct Hm as (M1 & M2 & M3 & M4 & M5).
      constructor.
      * intros y' x' [Heq|Hin] Hs'.
        -- inversion Heq; subst y' x'. split; [auto|lia].
        -- apply Hc; assumption.
      * repeat split; try lia. auto.
      * destruct Hx0 as [Heq|(y' & Hin & Hs')]; [|right; exists y'; simpl; auto].
        destruct (Z.min_spec x (minX b)) as [[? Hmin]|[? Hmin]]; [|left; lia].
        right. exists y. replace (minX b') with x by lia. simpl; auto.
      * destruct Hx1 as [Heq|(y' & Hin & Hs')]; [|right; exists y'; simpl; auto].
        destruct (Z.max_spec x (maxX b)) as [[? Hmax]|[? Hmax]]; [left; lia|].
        right. exists y. replace (maxX b') with x by lia. simpl; auto.
      * destruct Hy0 as [Heq|(x' & Hin & Hs')]; [|right; exists x'; simpl; auto].
        destruct (Z.min_spec y (minY b)) as [[? Hmin]|[? Hmin]]; [|left; lia].
        right. exists x. replace (minY b') with y by lia. simpl; auto.
      * destruct Hy1 as [Heq|(x' & Hin & Hs')]; [|right; exists x'; simpl; auto].
        destruct (Z.max_spec y (maxY b)) as [[? Hmax]|[? Hmax]]; [left; lia|].
        right. exists x. replace (maxY b') with y by lia. simpl; auto.
      * intros Hall. exfalso. apply (Hall y x); simpl; auto.
    + rewrite Hv in *. constructor.
      * intros y' x' [Heq|Hin] Hs'.
        -- inversion Heq; subst y' x'. contradiction.
        -- apply Hc; assumption.
      * assumption.
      * destruct Hx0 as [?|(y' & ? & ?)]; [left|right; exists y'; simpl]; auto.
      * destruct Hx1 as [?|(y' & ? & ?)]; [left|right; exists y'; simpl]; auto.
      * destruct Hy0 as [?|(x' & ? & ?)]; [left|right; exists x'; simpl]; auto.
      * destruct Hy1 as [?|(x' & ? & ?)]; [left|right; exists x'; simpl]; auto.
      * intros Hall. apply Hn. intros; apply Hall; simpl; auto.
Qed.

Lemma scanRow_scanList (b : Bounds) (y : Z) :
  scanRow data width b y = scanList (List.map (fun x => (y, x)) (seqZ 0 width)) b.
Proof.
  unfold scanRow, scanList. generalize (seqZ 0 width) b.
  induction l as [|x l IH]; intros b0; simpl; auto.
Qed.

Lemma scan_scanList (height : Z) :
  scan data width height =
  scanList (coords height) (mkBounds width height 0 0 false).
Proof.
  unfold scan, coords. generalize (mkBounds width height 0 0 false).
  generalize (seqZ 0 height).
  induction l as [|y l IH]; intros b; simpl; auto.
  unfold scanList at 1. rewrite fold_left_app. fold (scanList (List.map (fun x => (y, x)) (seqZ 0 width)) b).
  rewrite <- scanRow_scanList. apply IH.
Qed.

Lemma in_coords (height y x : Z) :
  In (y, x) (coords height) <-> 0 <= y < height /\ 0 <= x < width.
Proof.
  unfold coords. rewrite in_flat_map. split.
  - intros (y' & Hy & Hin). apply in_map_iff in Hin as (x' & Heq & Hx).
    inversion Heq; subst.
    apply list_elem_of_In, elem_of_seqZ in Hy.
    apply list_elem_of_In, elem_of_seqZ in Hx. lia.
  - intros [Hy Hx]. exists y. split.
    + apply list_elem_of_In, elem_of_seqZ. lia.
    + apply in_map. apply list_elem_of_In, elem_of_seqZ. lia.
Qed.

End Scan.

Lemma seen_readBack (s : Surface) (x y : Z) :
  inExtent s x y ->
  (seen (readBack s) (cv_width s) y x <-> 0 < alphaAt s x y).
Proof.
  intros [Hx Hy]. unfold seen, readBack.
  rewrite alpha_of_imageData by assumption. lia.
Qed.


(** The scan ends with the bounding box of the visible pixels. *)
Lemma scan_bounding_box (s : Surface) (x0 y0 x1 y1 : Z) :
  isBoundingBox s x0 y0 x1 y1 ->
  scan (readBack s) (cv_width s) (cv_height s) = mkBounds x0 y0 x1 y1 true.
Proof.
  intros (Hall & (ya & Ea & Va) & (yb & Eb & Vb) & (xc & Ec & Vc) & (xd & Ed & Vd)).
  rewrite scan_scanList.
  pose proof (scanList_spec (readBack s) (cv_width s) (coords (cv_width s) (cv_height s))
                (mkBounds (cv_width s) (cv_height s) 0 0 false)) as S.
  set (b := scanList _ _ _ _) in *.
  destruct S as [Hc _ Hx0 Hx1 Hy0 Hy1 _]. simpl in *.
  assert (cover : forall x y, inExtent s x y -> 0 < alphaAt s x y ->
            hasAlpha b = true /\ minX b <= x <= maxX b /\ minY b <= y <= maxY b).
  { intros x y He Hv. apply Hc.
    - apply in_coords. unfold inExtent in He. lia.
    - apply seen_readBack; assumption. }
  assert (back : forall x y, In (y, x) (coords (cv_width s) (cv_height s)) ->
            seen (readBack s) (cv_width s) y x ->
            inExtent s x y /\ x0 <= x <= x1 /\ y0 <= y <= y1).
  { intros x y Hin Hs. apply in_coords in Hin.
    assert (He : inExtent s x y) by (unfold inExtent; lia).
    split; [assumption|]. apply Hall; [assumption|].
    apply seen_readBack; assumption. }
  destruct (cover _ _ Ea Va) as (Ha & A1 & _).
  destruct (cover _ _ Eb Vb) as (_ & B1 & _).
  destruct (cover _ _ Ec Vc) as (_ & _ & C1).
  destruct (cover _ _ Ed Vd) as (_ & _ & D1).
  unfold inExtent in *.
  assert (minX b = x0).
  { destruct Hx0 as [Heq|(y & Hin & Hs)]; [lia|].
    destruct (back _ _ Hin Hs) as (_ & ? & _). lia. }
  assert (maxX b = x1).
  { destruct Hx1 as [Heq|(y & Hin & Hs)]; [lia|].
    destruct (back _ _ Hin Hs) as (_ & ? & _). lia. }
  assert (minY b = y0).
  { destruct Hy0 as [Heq|(x & Hin & Hs)]; [lia|].
    destruct (back _ _ Hin Hs) as (_ & _ & ?). lia. }
  assert (maxY b = y1).
  { destruct Hy1 as [Heq|(x & Hin & Hs)]; [lia|].
    destruct (back _ _ Hin Hs) as (_ & _ & ?). lia. }
  destruct b; simpl in *; congruence.
Qed.

(* ================================================================== *)
(** ** The paths of [trimCanvas] *)
(* ================================================================== *)

(** The state after the two host calls that precede the scan. *)
Lemma trimCanvas_scanned (h : Host) (c : CanvasId) (st : State) (s : Surface) :
  heap st !! c = Some s ->
  cv_width s <> 0 -> cv_height s <> 0 ->
  cv_width s * cv_height s <= TRIM_LIMIT ->
  getContext_null h c = false ->
  getImageData_raises h c = None ->
  trimCanvas h (InCanvas c) st =
  try_catch
    (cropToBounds h c (cv_width s) (cv_height s)
       (scan (readBack s) (cv_width s) (cv_height s)))
    (trimFallback c)
    (mkState (heap st) ((calls st ++ [GetContext c]) ++ [GetImageData c])).
Proof.
  intros Hs Hw Hh Hlim Hctx Hget.
  unfold trimCanvas, inputCanvas, bind, ret, readSurface, surfaceOf. rewrite Hs. simpl.
  destruct (Z.eqb_spec (cv_width s) 0); [contradiction|].
  destruct (Z.eqb_spec (cv_height s) 0); [contradiction|]. simpl.
  destruct (Z.gtb_spec (cv_width s * cv_height s) TRIM_LIMIT); [lia|].
  unfold getContext, bind, log, ret. simpl. rewrite Hctx.
  unfold try_catch, getImageData, bind, log, guard_raise, ret, readSurface, surfaceOf.
  simpl. rewrite Hget. simpl. rewrite Hs. reflexivity.
Qed.

Lemma benignHost_benign : benign benignHost.
Proof. repeat split. Qed.

Lemma boundingBox_positive (s : Surface) (x0 y0 x1 y1 : Z) :
  isBoundingBox s x0 y0 x1 y1 ->
  0 < cv_width s /\ 0 < cv_height s /\
  0 <= x0 <= x1 /\ x1 < cv_width s /\ 0 <= y0 <= y1 /\ y1 < cv_height s.
Proof.
  intros (Hall & (ya & Ea & Va) & (yb & Eb & Vb) & (xc & Ec & Vc) & (xd & Ed & Vd)).
  pose proof (Hall _ _ Ea Va). pose proof (Hall _ _ Eb Vb).
  pose proof (Hall _ _ Ec Vc). pose proof (Hall _ _ Ed Vd).
  unfold inExtent in *. lia.
Qed.



(** The path without a copy: the box found is the whole surface. *)
Lemma trimCanvas_full_extent (h : Host) (c : CanvasId) (st : State) (s : Surface) :
  heap st !! c = Some s ->
  isBoundingBox s 0 0 (cv_width s - 1) (cv_height s - 1) ->
  getContext_null h c = false ->
  (trimCanvas h (InCanvas c) st).1
    = Ok (Some (TrimResult.mk c (cv_width s) (cv_height s))) /\
  heap (trimCanvas h (InCanvas c) st).2 = heap st.
Proof.
  intros Hs Hbox Hctx.
  destruct (boundingBox_positive _ _ _ _ _ Hbox) as (Hw & Hh & _).
  destruct (Z.gtb_spec (cv_width s * cv_height s) TRIM_LIMIT) as [Hbig|Hsmall].
  - unfold trimCanvas, inputCanvas, bind, ret, readSurface, surfaceOf. rewrite Hs. simpl.
    destruct (Z.eqb_spec (cv_width s) 0); [lia|].
    destruct (Z.eqb_spec (cv_height s) 0); [lia|]. simpl.
    destruct (Z.gtb_spec (cv_width s * cv_height s) TRIM_LIMIT); [|lia].
    split; reflexivity.
  - destruct (getImageData_raises h c) as [e|] eqn:Hget.
    + unfold trimCanvas, inputCanvas, bind, ret, readSurface, surfaceOf. rewrite Hs. simpl.
      destruct (Z.eqb_spec (cv_width s) 0); [lia|].
      destruct (Z.eqb_spec (cv_height s) 0); [lia|]. simpl.
      destruct (Z.gtb_spec (cv_width s * cv_height s) TRIM_LIMIT); [lia|].
      unfold getContext, bind, log, ret. simpl. rewrite Hctx.
      unfold try_catch, getImageData, bind, log, guard_raise, raise. simpl.
      rewrite Hget. simpl.
      unfold trimFallback, consoleWarn, bind, log, readSurface, surfaceOf, ret.
      simpl. rewrite Hs. split; reflexivity.
    + rewrite (trimCanvas_scanned h c st s) by (auto; lia).
      rewrite (scan_bounding_box _ _ _ _ _ Hbox).
      unfold try_catch, cropToBounds. simpl.
      replace (cv_width s - 1 - 0 + 1 =? cv_width s) with true by (symmetry; apply Z.eqb_eq; lia).
      replace (cv_height s - 1 - 0 + 1 =? cv_height s) with true by (symmetry; apply Z.eqb_eq; lia).
      split; reflexivity.
Qed.

(** The copy of the bounding box is a surface whose bounding box is its full
    extent. *)
Lemma cropped_is_tight (s : Surface) (x0 y0 x1 y1 : Z) :
  isBoundingBox s x0 y0 x1 y1 ->
  isBoundingBox (cropped s x0 y0 (x1 - x0 + 1) (y1 - y0 + 1))
                0 0 (x1 - x0 + 1 - 1) (y1 - y0 + 1 - 1).
Proof.
  intros Hbox.
  destruct (boundingBox_positive _ _ _ _ _ Hbox) as (Hw & Hh & Hx & Hx1 & Hy & Hy1).
  destruct Hbox as (Hall & (ya & Ea & Va) & (yb & Eb & Vb) & (xc & Ec & Vc) & (xd & Ed & Vd)).
  pose proof (Hall _ _ Ea Va) as Ba. pose proof (Hall _ _ Eb Vb) as Bb.
  pose proof (Hall _ _ Ec Vc) as Bc. pose proof (Hall _ _ Ed Vd) as Bd.
  assert (at_ : forall x y, 0 <= x < x1 - x0 + 1 -> 0 <= y < y1 - y0 + 1 ->
            alphaAt (cropped s x0 y0 (x1 - x0 + 1) (y1 - y0 + 1)) x y
            = alphaAt s (x0 + x) (y0 + y)).
  { intros x y Hxx Hyy. unfold alphaAt, cropped, inBox. simpl.
    destruct (Z.leb_spec 0 x); [|lia]. destruct (Z.ltb_spec x (0 + (x1 - x0 + 1))); [|lia].
    destruct (Z.leb_spec 0 y); [|lia]. destruct (Z.ltb_spec y (0 + (y1 - y0 + 1))); [|lia].
    simpl. rewrite !Z.sub_0_r. reflexivity. }
  unfold isBoundingBox, inExtent in *. simpl.
  split; [intros x y He _; lia|].
  split; [|split; [|split]].
  - exists (ya - y0). split; [lia|]. rewrite at_ by lia.
    replace (x0 + 0) with x0 by lia. replace (y0 + (ya - y0)) with ya by lia. exact Va.
  - exists (yb - y0). split; [lia|]. rewrite at_ by lia.
    replace (x0 + (x1 - x0 + 1 - 1)) with x1 by lia.
    replace (y0 + (yb - y0)) with yb by lia. exact Vb.
  - exists (xc - x0). split; [lia|]. rewrite at_ by lia.
    replace (y0 + 0) with y0 by lia. replace (x0 + (xc - x0)) with xc by lia. exact Vc.
  - exists (xd - x0). split; [lia|]. rewrite at_ by lia.
    replace (y0 + (y1 - y0 + 1 - 1)) with y1 by lia.
    replace (x0 + (xd - x0)) with xd by lia. exact Vd.
Qed.

(** C6.  When the bounding box of the visible pixels of a surface (a canvas
    that gives its 2d context) is the full extent, [trimCanvas] answers the
    canvas it was given, with the width and height of that canvas, and leaves
    the heap as it was: no surface is created or written, so dimensions and
    pixels are those of the input. *)
Theorem trim_full_extent_is_identity (h : Host) (c : CanvasId) (st : State) (s : Surface) :
  heap st !! c = Some s ->
  isBoundingBox s 0 0 (cv_width s - 1) (cv_height s - 1) ->
  getContext_null h c = false ->
  (trimCanvas h (InCanvas c) st).1
    = Ok (Some (TrimResult.mk c (cv_width s) (cv_height s))) /\
  heap (trimCanvas h (InCanvas c) st).2 = heap st.
Proof. apply trimCanvas_full_extent. Qed.

Lemma trim_full_extent_is_identity_witness :
  (trimCanvas benignHost (InCanvas 0%nat) (domWith (rectSurface 3 2 0 0 2 1))).1
    = Ok (Some (TrimResult.mk 0%nat 3 2)) /\
  heap (trimCanvas benignHost (InCanvas 0%nat) (domWith (rectSurface 3 2 0 0 2 1))).2
    = [rectSurface 3 2 0 0 2 1].
Proof.
  apply (trim_full_extent_is_identity benignHost 0%nat
           (domWith (rectSurface 3 2 0 0 2 1)) (rectSurface 3 2 0 0 2 1)).
  - reflexivity.
  - unfold isBoundingBox, inExtent, alphaAt. simpl. repeat split; try lia.
    + exists 0. simpl. lia.
    + exists 0. simpl. lia.
    + exists 0. simpl. lia.
    + exists 0. simpl. lia.
  - reflexivity.
Defined.

Lemma rectangle_is_bounding_box (s : Surface) (x0 y0 x1 y1 : Z) :
  onlyRectangleVisible s x0 y0 x1 y1 -> isBoundingBox s x0 y0 x1 y1.
Proof.
  intros (Hx & Hy & Hall). unfold isBoundingBox.
  assert (corner : forall x y, x0 <= x <= x1 -> y0 <= y <= y1 ->
            inExtent s x y /\ 0 < alphaAt s x y).
  { intros x y Hxx Hyy.
    assert (He : inExtent s x y) by (unfold inExtent; lia).
    split; [assumption|]. apply (Hall x y He). lia. }
  split; [|repeat split].
  - intros x y He Hv. destruct (Hall x y He) as [_ Hout].
    destruct (decide (x0 <= x <= x1 /\ y0 <= y <= y1)) as [Hin|Hnot]; [lia|].
    rewrite (Hout Hnot) in Hv. lia.
  - exists y0. apply corner; lia.
  - exists y0. apply corner; lia.
  - exists x0. apply corner; lia.
  - exists x0. apply corner; lia.
Qed.

(** The copy path: on a host that works, a surface whose bounding box is a
    proper part of its extent is copied into a new canvas of the size of the
    box. *)
Lemma trimCanvas_crops (h : Host) (c : CanvasId) (st : State) (s : Surface)
      (x0 y0 x1 y1 : Z) :
  benign h ->
  heap st !! c = Some s ->
  cv_width s * cv_height s <= TRIM_LIMIT ->
  isBoundingBox s x0 y0 x1 y1 ->
  x1 - x0 + 1 <> cv_width s \/ y1 - y0 + 1 <> cv_height s ->
  trimCanvas h (InCanvas c) st =
  (Ok (Some (TrimResult.mk (length (heap st)) (x1 - x0 + 1) (y1 - y0 + 1))),
   mkState (heap st ++ [cropped s x0 y0 (x1 - x0 + 1) (y1 - y0 + 1)])
           (calls st ++ [GetContext c; GetImageData c;
                         CreateCanvas (x1 - x0 + 1) (y1 - y0 + 1);
                         GetContext (length (heap st));
                         DrawImage c (length (heap st))])).
Proof.
  intros (Hcreate & Hctx & _ & _ & Hget & Hdraw) Hs Hlim Hbox Hproper.
  destruct (boundingBox_positive _ _ _ _ _ Hbox) as (Hw & Hh & Hx & Hx1 & Hy & Hy1).
  rewrite (trimCanvas_scanned h c st s) by (auto; lia).
  rewrite (scan_bounding_box _ _ _ _ _ Hbox).
  unfold try_catch, cropToBounds. simpl.
  assert (Hne : (x1 - x0 + 1 =? cv_width s) && (y1 - y0 + 1 =? cv_height s) = false).
  { apply andb_false_iff. destruct Hproper; [left|right]; apply Z.eqb_neq; assumption. }
  rewrite Hne.
  unfold createCanvas, getContext, drawImage, bind, log, guard_raise, ret,
    allocSurface, readSurface, writeSurface, surfaceOf. simpl.
  rewrite Hcreate. simpl. rewrite Hctx. simpl. rewrite Hdraw. simpl.
  assert (Hdw : canvasDim 300 (x1 - x0 + 1) = x1 - x0 + 1).
  { unfold canvasDim, TRIM_LIMIT in *.
    destruct (Z.leb_spec 0 (x1 - x0 + 1)); [|lia].
    destruct (Z.leb_spec (x1 - x0 + 1) 2147483647); [reflexivity|nia]. }
  assert (Hdh : canvasDim 150 (y1 - y0 + 1) = y1 - y0 + 1).
  { unfold canvasDim, TRIM_LIMIT in *.
    destruct (Z.leb_spec 0 (y1 - y0 + 1)); [|lia].
    destruct (Z.leb_spec (y1 - y0 + 1) 2147483647); [reflexivity|nia]. }
  rewrite Hdw, Hdh.
  rewrite (lookup_app_l (heap st) _ c) by (eapply lookup_lt_Some; eassumption).
  rewrite Hs. simpl.
  rewrite list_lookup_middle by reflexivity. simpl.
  f_equal. f_equal.
  - replace (length (heap st)) with (length (heap st) + 0)%nat at 1 by lia.
    rewrite insert_app_r. reflexivity.
  - rewrite <- !app_assoc. reflexivity.
Qed.

(** C5, amended.  On a surface with no more pixels than the scan ceiling in
    which exactly the pixels of the rectangle (2,3)..(5,7) are visible, and on
    a host that works, [trimCanvas] answers a new canvas of width 4 and height
    5 whose pixel at (0,0) is the pixel at (2,3) of the input. *)
Theorem trim_rectangle_2_3_5_7 (h : Host) (c : CanvasId) (st : State) (s : Surface) :
  benign h ->
  heap st !! c = Some s ->
  cv_width s * cv_height s <= TRIM_LIMIT ->
  onlyRectangleVisible s 2 3 5 7 ->
  exists c' s',
    (trimCanvas h (InCanvas c) st).1 = Ok (Some (TrimResult.mk c' 4 5)) /\
    heap (trimCanvas h (InCanvas c) st).2 !! c' = Some s' /\
    cv_width s' = 4 /\ cv_height s' = 5 /\
    cv_pixel s' 0 0 = cv_pixel s 2 3.
Proof.
  intros Hben Hs Hlim Hrect.
  pose proof (rectangle_is_bounding_box _ _ _ _ _ Hrect) as Hbox.
  destruct Hrect as (Hx & Hy & _).
  rewrite (trimCanvas_crops h c st s 2 3 5 7) by (auto; lia).
  exists (length (heap st)), (cropped s 2 3 4 5). simpl.
  repeat split. apply list_lookup_middle. reflexivity.
Qed.

Lemma rectSurface_rectangle (w h x0 y0 x1 y1 : Z) :
  0 <= x0 <= x1 -> x1 < w -> 0 <= y0 <= y1 -> y1 < h ->
  onlyRectangleVisible (rectSurface w h x0 y0 x1 y1) x0 y0 x1 y1.
Proof.
  intros Hx Hx1 Hy Hy1. unfold onlyRectangleVisible, inExtent, alphaAt. simpl.
  repeat split; try lia.
  - destruct (Z.leb_spec x0 x), (Z.leb_spec x x1), (Z.leb_spec y0 y),
      (Z.leb_spec y y1); simpl; lia.
  - destruct (Z.leb_spec x0 x), (Z.leb_spec x x1), (Z.leb_spec y0 y),
      (Z.leb_spec y y1); simpl; lia.
Qed.

Lemma trim_rectangle_2_3_5_7_witness :
  exists c' s',
    (trimCanvas benignHost (InCanvas 0%nat) (domWith (rectSurface 8 9 2 3 5 7))).1
      = Ok (Some (TrimResult.mk c' 4 5)) /\
    heap (trimCanvas benignHost (InCanvas 0%nat) (domWith (rectSurface 8 9 2 3 5 7))).2 !! c'
      = Some s' /\
    cv_width s' = 4 /\ cv_height s' = 5 /\
    cv_pixel s' 0 0 = cv_pixel (rectSurface 8 9 2 3 5 7) 2 3.
Proof.
  apply (trim_rectangle_2_3_5_7 benignHost 0%nat (domWith (rectSurface 8 9 2 3 5 7))
           (rectSurface 8 9 2 3 5 7)).
  - exact benignHost_benign.
  - reflexivity.
  - vm_compute; discriminate.
  - apply rectSurface_rectangle; lia.
Defined.

(** C5 as stated fails beyond the scan ceiling: a surface of 4001 by 4000
    pixels with only the rectangle (2,3)..(5,7) visible comes back whole. *)
Lemma trim_rectangle_counterexample :
  onlyRectangleVisible (rectSurface 4001 4000 2 3 5 7) 2 3 5 7 /\
  (trimCanvas benignHost (InCanvas 0%nat) (domWith (rectSurface 4001 4000 2 3 5 7))).1
    = Ok (Some (TrimResult.mk 0%nat 4001 4000)) /\
  forall c', (trimCanvas benignHost (InCanvas 0%nat)
                (domWith (rectSurface 4001 4000 2 3 5 7))).1
             <> Ok (Some (TrimResult.mk c' 4 5)).
Proof.
  split; [apply rectSurface_rectangle; lia|].
  assert (E : (trimCanvas benignHost (InCanvas 0%nat)
                 (domWith (rectSurface 4001 4000 2 3 5 7))).1
              = Ok (Some (TrimResult.mk 0%nat 4001 4000))) by reflexivity.
  split; [exact E|]. intros c'. rewrite E. discriminate.
Qed.

(* ================================================================== *)
(** ** Failure of the copy, and the frame of [trimCanvas] *)
(* ================================================================== *)


(** The path that the handler does not see: when the new canvas gives no
    context ([getContext] answers [null]) nothing raises, the copy is skipped,
    and the answer is the new canvas, still blank. *)
Lemma trim_without_context_of_new_canvas :
  (trimCanvas noContextHost (InCanvas 0%nat) (domWith (rectSurface 8 9 2 3 5 7))).1
    = Ok (Some (TrimResult.mk 1%nat 4 5)) /\
  heap (trimCanvas noContextHost (InCanvas 0%nat) (domWith (rectSurface 8 9 2 3 5 7))).2
    !! 1%nat = Some (blank 4 5).
Proof. split; reflexivity. Qed.

Lemma prefix_insert_fresh {A} (l k : list A) (i : nat) (x : A) :
  l `prefix_of` k -> (length l <= i)%nat -> l `prefix_of` <[i := x]> k.
Proof.
  intros [t ->] Hi.
  replace i with (length l + (i - length l))%nat by lia.
  rewrite insert_app_r. eexists; reflexivity.
Qed.

Lemma prefix_app_fresh {A} (l k t : list A) :
  l `prefix_of` k -> l `prefix_of` (k ++ t).
Proof. intros [u ->]. rewrite <- app_assoc. eexists; reflexivity. Qed.

(** [imageDataToCanvas] only adds to the heap; the canvas it answers for a
    layer without a ready-made one is new. *)
Lemma imageDataToCanvas_frame (h : Host) (layer : RawLayer.t) (st : State) :
  heap st `prefix_of` heap (imageDataToCanvas h layer st).2.
Proof.
  unfold imageDataToCanvas, try_catch, createCanvas, getContext, newImageData,
    putImageData, consoleError, consoleWarn, bind, log, guard_raise, raise, ret,
    allocSurface, readSurface, writeSurface.
  repeat (case_match; simplify_eq/=);
    repeat first [ reflexivity
                 | apply prefix_insert_fresh; [|simpl; lia]
                 | apply prefix_app_fresh ].
Qed.

Lemma trimCanvas_of_layer (h : Host) (layer : RawLayer.t) (st : State) :
  trimCanvas h (InLayer layer) st =
  match imageDataToCanvas h layer st with
  | (Ok (Some c), st1) => trimCanvas h (InCanvas c) st1
  | (Ok None, st1) => (Ok None, st1)
  | (Throw e, st1) => (Throw e, st1)
  end.
Proof.
  unfold trimCanvas, inputCanvas, bind at 1 3. simpl.
  destruct (imageDataToCanvas h layer st) as [[[c|]|e] st1]; reflexivity.
Qed.




Lemma trimCanvas_of_canvas_frame (h : Host) (c : CanvasId) (st : State) :
  heap st `prefix_of` heap (trimCanvas h (InCanvas c) st).2.
Proof.
  unfold trimCanvas, inputCanvas, cropToBounds, trimFallback, try_catch, createCanvas, getContext,
    getImageData, drawImage, consoleWarn, bind, log, guard_raise, raise, ret,
    allocSurface, readSurface, writeSurface.
  repeat (case_match; simplify_eq/=);
    repeat first [ reflexivity
                 | apply prefix_insert_fresh; [|simpl; lia]
                 | apply prefix_app_fresh ].
Qed.

Lemma trimCanvas_frame (h : Host) (input : TrimInput) (st : State) :
  heap st `prefix_of` heap (trimCanvas h input st).2.
Proof.
  destruct input as [c|layer]; [apply trimCanvas_of_canvas_frame|].
  rewrite trimCanvas_of_layer.
  pose proof (imageDataToCanvas_frame h layer st) as H1.
  destruct (imageDataToCanvas h layer st) as [[[c|]|e] st1]; simpl in *; try assumption.
  etransitivity; [exact H1|apply trimCanvas_of_canvas_frame].
Qed.

(** C10.  Every surface that exists before a call of [trimCanvas] is the same
    after it, whatever the input (a canvas or a raw layer), the host and the
    path taken: width, height and pixels are untouched, and the writes of
    [putImageData] and [drawImage] land on canvases created during the call. *)
Theorem trim_leaves_input_unchanged (h : Host) (input : TrimInput) (st : State)
        (c : CanvasId) (s : Surface) :
  heap st !! c = Some s ->
  heap (trimCanvas h input st).2 !! c = Some s.
Proof.
  intros Hs. eapply prefix_lookup_Some; [exact Hs|apply trimCanvas_frame].
Qed.

Lemma trim_leaves_input_unchanged_witness :
  heap (trimCanvas benignHost (InCanvas 0%nat) (domWith (rectSurface 8 9 2 3 5 7))).2
    !! 0%nat = Some (rectSurface 8 9 2 3 5 7).
Proof.
  apply (trim_leaves_input_unchanged benignHost (InCanvas 0%nat)
           (domWith (rectSurface 8 9 2 3 5 7)) 0%nat (rectSurface 8 9 2 3 5 7)).
  reflexivity.
Defined.


(* ================================================================== *)
(** ** The memory guard and the two ceilings *)
(* ================================================================== *)

(** C3, amended.  For a layer that carries no ready-made canvas and whose
    pixel count exceeds the ceiling of 48,000,000, [imageDataToCanvas] answers
    [null]; the only call it makes on the host is the error message of the
    guard, so no canvas and no image data is created, and the heap is as it
    was. *)
Theorem materialize_refuses_oversized (h : Host) (layer : RawLayer.t) (st : State) :
  RawLayer.canvas layer = None ->
  RawLayer.width layer * RawLayer.height layer > PIXEL_LIMIT ->
  (imageDataToCanvas h layer st).1 = Ok None /\
  heap (imageDataToCanvas h layer st).2 = heap st /\
  exists made, calls (imageDataToCanvas h layer st).2 = calls st ++ made /\
               forallb (fun k => negb (is_allocation k)) made = true.
Proof.
  intros Hc Hbig. unfold PIXEL_LIMIT in Hbig. unfold imageDataToCanvas. rewrite Hc.
  destruct (RawLayer.canvasData layer) as [data|].
  - destruct (Z.eqb_spec (RawLayer.width layer) 0) as [E|_]; [rewrite E in Hbig; lia|].
    destruct (Z.eqb_spec (RawLayer.height layer) 0) as [E|_];
      [rewrite E in Hbig; lia|]. simpl.
    destruct (Z.gtb_spec (RawLayer.width layer * RawLayer.height layer) PIXEL_LIMIT)
      as [_|Hle]; [|unfold PIXEL_LIMIT in Hle; lia].
    simpl. repeat split. exists [ConsoleError MemoryGuardRefused]. split; reflexivity.
  - simpl. repeat split. exists []. rewrite app_nil_r. split; reflexivity.
Qed.

Lemma materialize_refuses_oversized_witness :
  (imageDataToCanvas benignHost oversizedLayer emptyDom).1 = Ok None /\
  heap (imageDataToCanvas benignHost oversizedLayer emptyDom).2 = heap emptyDom /\
  exists made,
    calls (imageDataToCanvas benignHost oversizedLayer emptyDom).2
      = calls emptyDom ++ made /\
    forallb (fun k => negb (is_allocation k)) made = true.
Proof.
  apply (materialize_refuses_oversized benignHost oversizedLayer emptyDom).
  - reflexivity.
  - vm_compute; reflexivity.
Defined.

(** C3 as stated fails for a layer that carries a ready-made canvas: the
    canvas is answered whatever the size. *)
Lemma materialize_guard_counterexample :
  RawLayer.width oversizedReadyLayer * RawLayer.height oversizedReadyLayer > PIXEL_LIMIT /\
  (imageDataToCanvas benignHost oversizedReadyLayer (domWith (blank 8000 8000))).1
    = Ok (Some 0%nat) /\
  (imageDataToCanvas benignHost oversizedReadyLayer (domWith (blank 8000 8000))).1
    <> Ok None.
Proof.
  split; [vm_compute; reflexivity|]. split; [reflexivity|discriminate].
Qed.

(** C4, amended.  The ceiling of the scan (16,000,000 pixels) is the smaller
    of the two: it is strictly below the ceiling of the materializer
    (48,000,000 pixels). *)
Theorem trim_ceiling_below_materializer_ceiling :
  TRIM_LIMIT = 16000000 /\ PIXEL_LIMIT = 48000000 /\ TRIM_LIMIT < PIXEL_LIMIT.
Proof. repeat split. Qed.

(** C4 as stated fails: the ceiling of the scan is not the larger one. *)
Lemma trim_ceiling_counterexample : ~ (PIXEL_LIMIT < TRIM_LIMIT).
Proof. unfold PIXEL_LIMIT, TRIM_LIMIT. lia. Qed.

(* ================================================================== *)
(** ** The export walk *)
(* ================================================================== *)

(** Induction on a layer tree, with the hypothesis for every child. *)
Lemma PsdLayer_ind (P : PsdLayer -> Prop) :
  (forall l, children l = None -> P l) ->
  (forall l cs, children l = Some cs -> Forall P cs -> P l) ->
  forall l, P l.
Proof.
  intros Hleaf Hnode. fix IH 1. intros l.
  destruct l as [i n t v [cs|] s w h tp lf] eqn:El.
  - apply (Hnode _ cs); [reflexivity|].
    clear El. induction cs as [|c r IHr]; constructor; [apply IH|apply IHr].
  - apply Hleaf. reflexivity.
Qed.

Lemma processedCounts_app (a b : list Output) :
  processedCounts (a ++ b) = processedCounts a ++ processedCounts b.
Proof. unfold processedCounts. apply omap_app. Qed.

Lemma quiet_nil : quiet [].
Proof. split; [reflexivity|intros []]. Qed.

Lemma quiet_app (a b : list Output) : quiet a -> quiet b -> quiet (a ++ b).
Proof.
  intros [Ha1 Ha2] [Hb1 Hb2]. split.
  - rewrite processedCounts_app, Ha1, Hb1. reflexivity.
  - rewrite in_app_iff. tauto.
Qed.

Section WalkFacts.
Variable v : Variant.
Variable env : Env.
Variable layerMap : gmap string RawLayer.t.
Variable namingStyle : NamingStyle.
Variable useFolderPrefix : bool.
Variable totalLayers : nat.
Variable zip : Zip.JSZip.

#[local] Abbreviation walkLeaf :=
  (processLeaf v env totalLayers zip).
#[local] Abbreviation walkLayer :=
  (processLayer v env layerMap namingStyle useFolderPrefix totalLayers zip).
#[local] Abbreviation walkLevel :=
  (processLevel v env layerMap namingStyle useFolderPrefix totalLayers zip).

(** A processed leaf counts for one and publishes its count first. *)
Lemma processLeaf_out (l : PsdLayer) (cleanName : string) (raw : RawLayer.t)
      (currentZip : Zip.JSZip) (prefixPath : string) (acc : nat * Export) :
  (walkLeaf l cleanName raw currentZip prefixPath acc).1 = S acc.1 /\
  exists rest,
    out (walkLeaf l cleanName raw currentZip prefixPath acc).2
      = out acc.2 ++ Progress (S acc.1) totalLayers (name l) :: rest /\
    quiet rest.
Proof.
  unfold processLeaf, runTrim, emit. simpl.
  destruct (trimCanvas (host env) (InLayer raw) (dom acc.2)) as [[[t|]|e] d]; simpl.
  - destruct (toBlob env (surfaceOf d (TrimResult.canvas t))) as [blob|]; simpl.
    + destruct (S acc.1 mod yieldEvery v =? 0)%nat; simpl; split; try reflexivity.
      * eexists. rewrite <- !app_assoc. simpl. split; [reflexivity|].
        split; [reflexivity|]. simpl. intuition discriminate.
      * eexists. rewrite <- !app_assoc. simpl. split; [reflexivity|].
        split; [reflexivity|]. simpl. intuition discriminate.
    + destruct (S acc.1 mod yieldEvery v =? 0)%nat; simpl; split; try reflexivity.
      * eexists. rewrite <- !app_assoc. simpl. split; [reflexivity|].
        split; [reflexivity|]. simpl. intuition discriminate.
      * eexists. split; [reflexivity|apply quiet_nil].
  - destruct (S acc.1 mod yieldEvery v =? 0)%nat; simpl; split; try reflexivity.
    + eexists. rewrite <- !app_assoc. simpl. split; [reflexivity|].
      split; [reflexivity|]. simpl. intuition discriminate.
    + eexists. split; [reflexivity|apply quiet_nil].
  - destruct (S acc.1 mod yieldEvery v =? 0)%nat; simpl; split; try reflexivity.
    + eexists. rewrite <- !app_assoc. simpl. split; [reflexivity|].
      split; [reflexivity|]. simpl. intuition discriminate.
    + eexists. split; [reflexivity|apply quiet_nil].
Qed.

Lemma Publishes_refl (acc : nat * Export) : Publishes acc 0 acc.
Proof.
  split; [simpl; lia|]. exists []. rewrite app_nil_r. repeat split. intros [].
Qed.

Lemma Publishes_trans (a b c : nat * Export) (k1 k2 : nat) :
  Publishes a k1 b -> Publishes b k2 c -> Publishes a (k1 + k2) c.
Proof.
  intros (E1 & m1 & O1 & P1 & G1) (E2 & m2 & O2 & P2 & G2). split; [lia|].
  exists (m1 ++ m2). repeat split.
  - rewrite O2, O1, app_assoc. reflexivity.
  - rewrite processedCounts_app, P1, P2, E1, seq_app. reflexivity.
  - rewrite in_app_iff. tauto.
Qed.

Lemma Publishes_quiet (acc : nat * Export) (st : Export) (made : list Output) :
  out st = out acc.2 ++ made -> quiet made -> Publishes acc 0 (acc.1, st).
Proof.
  intros Ho [Hq Hg]. split; [simpl; lia|]. exists made. simpl. auto.
Qed.

Lemma processLeaf_publishes (l : PsdLayer) (cleanName : string) (raw : RawLayer.t)
      (currentZip : Zip.JSZip) (prefixPath : string) (acc : nat * Export) :
  Publishes acc 1 (walkLeaf l cleanName raw currentZip prefixPath acc).
Proof.
  destruct (processLeaf_out l cleanName raw currentZip prefixPath acc)
    as (Hn & rest & Ho & Hq & Hg).
  split; [lia|]. eexists. split; [exact Ho|]. split.
  - change (Progress (S acc.1) totalLayers (name l) :: rest)
      with ([Progress (S acc.1) totalLayers (name l)] ++ rest).
    rewrite processedCounts_app, Hq. reflexivity.
  - simpl. intros [H|H]; [discriminate|contradiction].
Qed.

(** The loop over a list, given the property for each element. *)
Lemma processLevel_publishes (ls : list PsdLayer) :
  Forall (fun l => forall z p acc,
            Forall (hasPayload layerMap) (selectedLeavesOf l) ->
            Publishes acc (length (selectedLeavesOf l)) (walkLayer l z p acc)) ls ->
  forall z p acc,
    Forall (hasPayload layerMap) (flat_map selectedLeavesOf ls) ->
    Publishes acc (length (flat_map selectedLeavesOf ls))
              (fold_left (fun a c => walkLayer c z p a) ls acc).
Proof.
  induction 1 as [|l ls Hl _ IH]; intros z p acc Hpay; simpl.
  - apply Publishes_refl.
  - simpl in Hpay. apply Forall_app in Hpay as [Hp1 Hp2].
    rewrite length_app. eapply Publishes_trans; [apply Hl; assumption|].
    apply IH; assumption.
Qed.

(** The walk of one node publishes one count for each selected leaf under
    it whose raw record is in the table. *)
Lemma processLayer_publishes (l : PsdLayer) :
  forall z p acc,
    Forall (hasPayload layerMap) (selectedLeavesOf l) ->
    Publishes acc (length (selectedLeavesOf l)) (walkLayer l z p acc).
Proof.
  induction l as [l Hnone|l cs Hsome IH] using PsdLayer_ind; intros z p acc Hpay.
  - destruct l as [i n t vis ch sel w h tp lf]. simpl in *. subst ch.
    destruct t; simpl in *.
    + destruct sel; simpl in *; [|apply Publishes_refl].
      apply Forall_cons in Hpay as [[raw Hraw] _]. simpl in Hraw. rewrite Hraw.
      apply processLeaf_publishes.
    + eapply Publishes_quiet; [reflexivity|].
      split; [reflexivity|]. simpl. intuition discriminate.
  - destruct l as [i n t vis ch sel w h tp lf]. simpl in *. subst ch.
    destruct t; simpl in *.
    + destruct sel; simpl in *; [|apply Publishes_refl].
      apply Forall_cons in Hpay as [[raw Hraw] _]. simpl in Hraw. rewrite Hraw.
      apply processLeaf_publishes.
    + change (length (flat_map selectedLeavesOf cs))
        with (0 + length (flat_map selectedLeavesOf cs))%nat.
      eapply Publishes_trans;
        [|apply (processLevel_publishes cs IH); assumption].
      eapply Publishes_quiet; [reflexivity|].
      split; [reflexivity|]. simpl. intuition discriminate.
Qed.

Lemma processLevel_selected (layers : list PsdLayer) (z : Zip.JSZip) (p : string)
      (acc : nat * Export) :
  Forall (hasPayload layerMap) (selectedLeaves layers) ->
  Publishes acc (length (selectedLeaves layers)) (walkLevel layers z p acc).
Proof.
  intros Hpay. apply processLevel_publishes; [|exact Hpay].
  apply Forall_forall. intros l _. apply processLayer_publishes.
Qed.

End WalkFacts.

(** The count of the source is at least the number of selected leaves of the
    walk, and is that number on a well-formed tree. *)
Lemma countLayer_lower (l : PsdLayer) :
  forall acc, (acc + length (selectedLeavesOf l) <= countLayer l acc)%nat.
Proof.
  assert (fold : forall cs,
            Forall (fun c => forall acc,
                      (acc + length (selectedLeavesOf c) <= countLayer c acc)%nat) cs ->
            forall acc, (acc + length (flat_map selectedLeavesOf cs)
                         <= fold_left (fun a c => countLayer c a) cs acc)%nat).
  { induction 1 as [|c cs Hc _ IH]; intros acc; simpl; [lia|].
    rewrite length_app. specialize (Hc acc).
    specialize (IH (countLayer c acc)). lia. }
  induction l as [l Hnone|l cs Hsome IH] using PsdLayer_ind; intros acc.
  - destruct l as [i n t vis ch sel w h tp lf]. simpl in *. subst ch.
    destruct t, sel; simpl; lia.
  - destruct l as [i n t vis ch sel w h tp lf]. simpl in *. subst ch.
    pose proof (fold cs IH) as F.
    destruct t, sel; simpl.
    + specialize (F (S acc)). lia.
    + specialize (F acc). lia.
    + specialize (F acc). lia.
    + specialize (F acc). lia.
Qed.

Lemma countSelected_lower (layers : list PsdLayer) :
  (length (selectedLeaves layers) <= countSelected layers)%nat.
Proof.
  unfold countSelected, selectedLeaves.
  assert (G : forall acc,
            (acc + length (flat_map selectedLeavesOf layers)
             <= fold_left (fun a c => countLayer c a) layers acc)%nat).
  { induction layers as [|l ls IH]; intros acc; simpl; [lia|].
    rewrite length_app. pose proof (countLayer_lower l acc).
    specialize (IH (countLayer l acc)). lia. }
  apply (G 0%nat).
Qed.

Lemma countLayer_wellFormed (l : PsdLayer) :
  wellFormedLayer l = true ->
  forall acc, countLayer l acc = (acc + length (selectedLeavesOf l))%nat.
Proof.
  assert (fold : forall cs,
            Forall (fun c => wellFormedLayer c = true -> forall acc,
                      countLayer c acc = (acc + length (selectedLeavesOf c))%nat) cs ->
            forallb wellFormedLayer cs = true ->
            forall acc, fold_left (fun a c => countLayer c a) cs acc
                        = (acc + length (flat_map selectedLeavesOf cs))%nat).
  { induction 1 as [|c cs Hc _ IH]; intros Hwf acc; simpl; [lia|].
    simpl in Hwf. apply andb_true_iff in Hwf as [W1 W2].
    rewrite length_app, (Hc W1 acc), (IH W2). lia. }
  induction l as [l Hnone|l cs Hsome IH] using PsdLayer_ind; intros Hwf acc.
  - destruct l as [i n t vis ch sel w h tp lf]. simpl in *. subst ch.
    destruct t, sel; simpl; lia.
  - destruct l as [i n t vis ch sel w h tp lf]. simpl in *. subst ch.
    destruct t; [discriminate|].
    destruct sel; simpl; apply (fold cs IH Hwf).
Qed.

Lemma countSelected_wellFormed (layers : list PsdLayer) :
  wellFormed layers = true ->
  countSelected layers = length (selectedLeaves layers).
Proof.
  unfold countSelected, selectedLeaves, wellFormed.
  assert (G : forall acc, forallb wellFormedLayer layers = true ->
            fold_left (fun a c => countLayer c a) layers acc
            = (acc + length (flat_map selectedLeavesOf layers))%nat).
  { induction layers as [|l ls IH]; intros acc Hwf; simpl; [lia|].
    simpl in Hwf. apply andb_true_iff in Hwf as [W1 W2].
    rewrite length_app, (countLayer_wellFormed l W1), (IH _ W2). lia. }
  apply (G 0%nat).
Qed.

(** C2.  In an export over a tree with [N >= 1] selected leaves, each with
    its raw record in the lookup table, the counts published by the progress
    updates are exactly 1, 2, ..., [N], all of them before the request to
    finalize the archive, and none after it.  This holds for the three
    versions of the export. *)
Theorem export_progress_counts (v : Variant) (env : Env)
        (layerMap : gmap string RawLayer.t) (namingStyle : NamingStyle)
        (useFolderPrefix : bool) (layers : list PsdLayer) (st : Export) (N : nat) :
  Forall (hasPayload layerMap) (selectedLeaves layers) ->
  length (selectedLeaves layers) = N ->
  (1 <= N)%nat ->
  exists pre post,
    out (exportAssets v env layerMap namingStyle useFolderPrefix layers st).2
      = out st ++ pre ++ ZipGenerate :: post /\
    processedCounts pre = seq 1 N /\
    ~ In ZipGenerate pre /\
    processedCounts post = [].
Proof.
  intros Hpay HN Hpos.
  pose proof (countSelected_lower layers) as Hcount.
  unfold exportAssets.
  destruct layers as [|l0 ls] eqn:El; [simpl in HN; lia|]. rewrite <- El in *.
  destruct (Nat.eqb_spec (countSelected layers) 0) as [E0|_]; [lia|].
  rewrite andb_false_r.
  pose proof (processLevel_selected v env layerMap namingStyle useFolderPrefix
                (countSelected layers) Zip.newZip layers Zip.newZip ""
                (0%nat, mkExport (dom (emit (SetState exporting 0 MsgInit) st)) ∅
                                 (out (emit (SetState exporting 0 MsgInit) st))) Hpay)
    as (_ & made & Hout & Hcounts & Hgen).
  destruct (processLevel _ _ _ _ _ _ _ _ _ _ _) as [n st1]. simpl in Hout, Hcounts.
  rewrite HN in Hcounts.
  exists ([SetState exporting 0 MsgInit] ++ made
          ++ [SetState exporting (packingProgress v) MsgPacking]).
  assert (Hpre : processedCounts ([SetState exporting 0 MsgInit] ++ made
                   ++ [SetState exporting (packingProgress v) MsgPacking]) = seq 1 N).
  { rewrite !processedCounts_app, Hcounts. simpl. apply app_nil_r. }
  assert (Hnog : ~ In ZipGenerate ([SetState exporting 0 MsgInit] ++ made
                   ++ [SetState exporting (packingProgress v) MsgPacking])).
  { rewrite !in_app_iff. simpl. intuition discriminate. }
  destruct (generateAsync env _) as [content|]; [|destruct (onFinalizeFailure v) as [[s p]|]];
    simpl; rewrite Hout; eexists; (split; [|split; [exact Hpre|split; [exact Hnog|]]]).
  - rewrite <- !app_assoc. simpl. reflexivity.
  - reflexivity.
  - rewrite <- !app_assoc. simpl. reflexivity.
  - reflexivity.
  - rewrite <- !app_assoc. simpl. reflexivity.
  - reflexivity.
Qed.

Lemma export_progress_counts_witness :
  exists pre post,
    out (exportAssets appTsx benignEnv mirrorMap original false mirrorTree emptyExport).2
      = out emptyExport ++ pre ++ ZipGenerate :: post /\
    processedCounts pre = seq 1 2 /\
    ~ In ZipGenerate pre /\
    processedCounts post = [].
Proof.
  apply (export_progress_counts appTsx benignEnv mirrorMap original false mirrorTree
           emptyExport 2).
  - repeat constructor; eexists; reflexivity.
  - reflexivity.
  - lia.
Defined.

(** C9, amended.  In the versions that have the zero check, an export over a
    tree without any selected layer (the count of the source is zero) does no
    work and makes no call on the archive sink.  When the tree is not empty it ends with the "nothing
    selected" outcome, after the alert and the status message; on the empty
    tree the first line returns at once, without that outcome. *)
Theorem export_without_selection (v : Variant) (env : Env)
        (layerMap : gmap string RawLayer.t) (namingStyle : NamingStyle)
        (useFolderPrefix : bool) (layers : list PsdLayer) (st : Export) :
  abortOnZero v = true ->
  countSelected layers = 0%nat ->
  exists made,
    exportAssets v env layerMap namingStyle useFolderPrefix layers st
    = (match layers with [] => ReturnedAtOnce | _ :: _ => NothingSelected end,
       mkExport (dom st) (match layers with [] => files st | _ :: _ => ∅ end)
                (out st ++ made)) /\
    made = match layers with
           | [] => []
           | _ :: _ => [SetState exporting 0 MsgInit; Alert;
                        SetState ready 100 MsgNothingSelected]
           end /\
    forallb (fun o => negb (isSinkCall o)) made = true.
Proof.
  intros Hv Hzero. unfold exportAssets.
  destruct layers as [|l0 ls] eqn:El.
  - exists []. rewrite app_nil_r. destruct st; repeat split.
  - rewrite <- El in *. rewrite Hv, Hzero. simpl.
    eexists. split; [|split; reflexivity].
    unfold emit. simpl. rewrite <- !app_assoc. reflexivity.
Qed.

Lemma export_without_selection_witness :
  exists made,
    exportAssets appTsx benignEnv mirrorMap original false
                 [leafNode "l2" "leaf2" false] emptyExport
    = (NothingSelected, mkExport (dom emptyExport) ∅ (out emptyExport ++ made)) /\
    made = [SetState exporting 0 MsgInit; Alert; SetState ready 100 MsgNothingSelected] /\
    forallb (fun o => negb (isSinkCall o)) made = true.
Proof.
  apply (export_without_selection appTsx benignEnv mirrorMap original false
           [leafNode "l2" "leaf2" false] emptyExport).
  - reflexivity.
  - reflexivity.
Defined.

(** C9 as stated fails on the empty tree: no leaf is selected, and the
    outcome is not "nothing selected". *)
Lemma export_without_selection_counterexample :
  selectedLeaves [] = [] /\ countSelected [] = 0%nat /\
  (exportAssets appTsx benignEnv mirrorMap original false [] emptyExport).1
    = ReturnedAtOnce /\
  (exportAssets appTsx benignEnv mirrorMap original false [] emptyExport).1
    <> NothingSelected.
Proof. repeat split. discriminate. Qed.

(** C1.  The export of [src/App.tsx] on the tree of the folder-mirroring
    property, with the style 'original' and the prefix disabled: the archive
    holds the folder entry [GroupA/] and the two files [leaf1.png] and
    [leaf3.png], both at the root; there is no [GroupA/leaf1.png]. *)
Theorem export_mirror_tree_appTsx :
  (forall p, In p (Zip.filePaths
                     (files (exportAssets appTsx benignEnv mirrorMap original false
                                          mirrorTree emptyExport).2))
             <-> p = "leaf1.png"%string \/ p = "leaf3.png"%string) /\
  files (exportAssets appTsx benignEnv mirrorMap original false mirrorTree emptyExport).2
    !! "GroupA/leaf1.png"%string = None /\
  files (exportAssets appTsx benignEnv mirrorMap original false mirrorTree emptyExport).2
    !! "GroupA/"%string = Some Zip.Dir.
Proof.
  assert (E : Zip.filePaths
                (files (exportAssets appTsx benignEnv mirrorMap original false
                                     mirrorTree emptyExport).2)
              = ["leaf3.png"; "leaf1.png"]%string) by (vm_compute; reflexivity).
  split; [|split; vm_compute; reflexivity].
  intros p. rewrite E. simpl. intuition.
Qed.

(** The version of [src/unnamed/part_000] writes each file into the scope of
    its folder: on the same input the files are [GroupA/leaf1.png] and
    [leaf3.png]. *)
Lemma export_mirror_tree_part000 :
  forall p, In p (Zip.filePaths
                    (files (exportAssets part000 benignEnv mirrorMap original false
                                         mirrorTree emptyExport).2))
            <-> p = "GroupA/leaf1.png"%string \/ p = "leaf3.png"%string.
Proof.
  assert (E : Zip.filePaths
                (files (exportAssets part000 benignEnv mirrorMap original false
                                     mirrorTree emptyExport).2)
              = ["GroupA/leaf1.png"; "leaf3.png"]%string) by (vm_compute; reflexivity).
  intros p. rewrite E. simpl. intuition.
Qed.

(** The version of [src/unnamed/part_001] writes to the root as [src/App.tsx]
    does. *)
Lemma export_mirror_tree_part001 :
  forall p, In p (Zip.filePaths
                    (files (exportAssets part001 benignEnv mirrorMap original false
                                         mirrorTree emptyExport).2))
            <-> p = "leaf1.png"%string \/ p = "leaf3.png"%string.
Proof.
  assert (E : Zip.filePaths
                (files (exportAssets part001 benignEnv mirrorMap original false
                                     mirrorTree emptyExport).2)
              = ["leaf3.png"; "leaf1.png"]%string) by (vm_compute; reflexivity).
  intros p. rewrite E. simpl. intuition.
Qed.

(* ================================================================== *)
(** ** Trimming twice *)
(* ================================================================== *)

(** X7.  After a trim that copied the bounding box, a second trim of the
    answer is the identity: same canvas, same width and height, heap
    untouched. *)
Lemma trim_is_idempotent (h : Host) (c : CanvasId) (st : State) (s : Surface)
      (x0 y0 x1 y1 : Z) :
  benign h ->
  heap st !! c = Some s ->
  cv_width s * cv_height s <= TRIM_LIMIT ->
  isBoundingBox s x0 y0 x1 y1 ->
  x1 - x0 + 1 <> cv_width s \/ y1 - y0 + 1 <> cv_height s ->
  (trimCanvas h (InCanvas (length (heap st))) (trimCanvas h (InCanvas c) st).2).1
    = Ok (Some (TrimResult.mk (length (heap st)) (x1 - x0 + 1) (y1 - y0 + 1))) /\
  heap (trimCanvas h (InCanvas (length (heap st))) (trimCanvas h (InCanvas c) st).2).2
    = heap (trimCanvas h (InCanvas c) st).2.
Proof.
  intros Hben Hs Hlim Hbox Hproper.
  rewrite (trimCanvas_crops h c st s x0 y0 x1 y1) by assumption. simpl.
  set (st1 := mkState _ _).
  apply (trimCanvas_full_extent h (length (heap st)) st1
           (cropped s x0 y0 (x1 - x0 + 1) (y1 - y0 + 1))).
  - simpl. apply list_lookup_middle. reflexivity.
  - simpl. apply cropped_is_tight. exact Hbox.
  - apply Hben.
Qed.

Lemma trim_is_idempotent_witness :
  (trimCanvas benignHost (InCanvas 1%nat)
     (trimCanvas benignHost (InCanvas 0%nat) (domWith (rectSurface 8 9 2 3 5 7))).2).1
    = Ok (Some (TrimResult.mk 1%nat (5 - 2 + 1) (7 - 3 + 1))) /\
  heap (trimCanvas benignHost (InCanvas 1%nat)
          (trimCanvas benignHost (InCanvas 0%nat) (domWith (rectSurface 8 9 2 3 5 7))).2).2
    = heap (trimCanvas benignHost (InCanvas 0%nat) (domWith (rectSurface 8 9 2 3 5 7))).2.
Proof.
  apply (trim_is_idempotent benignHost 0%nat (domWith (rectSurface 8 9 2 3 5 7))
           (rectSurface 8 9 2 3 5 7) 2 3 5 7).
  - exact benignHost_benign.
  - reflexivity.
  - vm_compute; discriminate.
  - apply rectangle_is_bounding_box, rectSurface_rectangle; lia.
  - simpl; lia.
Defined.

(* ================================================================== *)
(** ** Further properties of the processor *)
(* ================================================================== *)

Lemma trim_bypass_path (h : Host) (c : CanvasId) (st : State) (s : Surface) :
  heap st !! c = Some s ->
  cv_width s * cv_height s > TRIM_LIMIT ->
  trimCanvas h (InCanvas c) st
  = (Ok (Some (TrimResult.mk c (cv_width s) (cv_height s))), st).
Proof.
  intros Hs Hbig. unfold TRIM_LIMIT in Hbig.
  unfold trimCanvas, inputCanvas, bind, ret, readSurface, surfaceOf. rewrite Hs. simpl.
  destruct (Z.eqb_spec (cv_width s) 0) as [E|_]; [rewrite E in Hbig; lia|].
  destruct (Z.eqb_spec (cv_height s) 0) as [E|_]; [rewrite E in Hbig; lia|]. simpl.
  destruct (Z.gtb_spec (cv_width s * cv_height s) TRIM_LIMIT) as [_|Hle];
    [reflexivity|unfold TRIM_LIMIT in Hle; lia].
Qed.

(** X1.  The size bypass: a surface with more pixels than the scan ceiling is
    answered as it is, with its own width and height; no call is made on the
    host and the state is untouched, whatever the transparent margins. *)
Theorem trim_bypasses_large_surface (h : Host) (c : CanvasId) (st : State) (s : Surface) :
  heap st !! c = Some s ->
  cv_width s * cv_height s > TRIM_LIMIT ->
  trimCanvas h (InCanvas c) st
  = (Ok (Some (TrimResult.mk c (cv_width s) (cv_height s))), st).
Proof. apply trim_bypass_path. Qed.

Lemma trim_bypasses_large_surface_witness :
  trimCanvas blitFailsHost (InCanvas 0%nat) (domWith (rectSurface 4001 4000 2 3 5 7))
  = (Ok (Some (TrimResult.mk 0%nat 4001 4000)), domWith (rectSurface 4001 4000 2 3 5 7)).
Proof.
  apply (trim_bypasses_large_surface blitFailsHost 0%nat
           (domWith (rectSurface 4001 4000 2 3 5 7)) (rectSurface 4001 4000 2 3 5 7)).
  - reflexivity.
  - vm_compute; reflexivity.
Defined.



(** The flag of the scan is raised only by a pixel that passes the test. *)
Lemma scanList_hasAlpha (data : list Z) (width : Z) (l : list (Z * Z)) :
  forall b, hasAlpha (scanList data width l b) = true ->
            hasAlpha b = true \/ exists y x, In (y, x) l /\ seen data width y x.
Proof.
  induction l as [|[y x] l IH]; intros b Hb; [left; exact Hb|].
  change (scanList data width ((y, x) :: l) b)
    with (scanList data width l (visit data width y x b)) in Hb.
  destruct (IH _ Hb) as [H1|(y' & x' & Hin & Hs)].
  - destruct (visit_cases data width y x b) as [[Hs _]|[_ Hv]].
    + right. exists y, x. simpl. auto.
    + rewrite Hv in H1. left. exact H1.
  - right. exists y', x'. simpl. auto.
Qed.

(** The scan of any surface: when the flag is raised, the box it ends with
    is the bounding box of the visible pixels. *)
Lemma scan_found_box (s : Surface) :
  hasAlpha (scan (readBack s) (cv_width s) (cv_height s)) = true ->
  isBoundingBox s
    (minX (scan (readBack s) (cv_width s) (cv_height s)))
    (minY (scan (readBack s) (cv_width s) (cv_height s)))
    (maxX (scan (readBack s) (cv_width s) (cv_height s)))
    (maxY (scan (readBack s) (cv_width s) (cv_height s))).
Proof.
  rewrite scan_scanList. intros Hflag.
  pose proof (scanList_spec (readBack s) (cv_width s) (coords (cv_width s) (cv_height s))
                (mkBounds (cv_width s) (cv_height s) 0 0 false)) as S.
  destruct (scanList_hasAlpha _ _ _ _ Hflag) as [Hf|(ys & xs & Hin & Hseen)];
    [discriminate|].
  set (b := scanList _ _ _ _) in *.
  destruct S as [Hc _ Hx0 Hx1 Hy0 Hy1 _]. simpl in *.
  assert (ext : forall y x, In (y, x) (coords (cv_width s) (cv_height s)) ->
                            inExtent s x y).
  { intros y x H. apply in_coords in H. unfold inExtent. lia. }
  assert (vis : forall y x, In (y, x) (coords (cv_width s) (cv_height s)) ->
                  seen (readBack s) (cv_width s) y x ->
                  inExtent s x y /\ 0 < alphaAt s x y).
  { intros y x H Hs. split; [apply ext; exact H|].
    apply seen_readBack; [apply ext; exact H|exact Hs]. }
  destruct (Hc _ _ Hin Hseen) as (_ & Bx & By).
  destruct (vis _ _ Hin Hseen) as (Es & Vs).
  unfold isBoundingBox. split; [|split; [|split; [|split]]].
  - intros x y He Hv. apply Hc.
    + apply in_coords. unfold inExtent in He. lia.
    + apply seen_readBack; assumption.
  - destruct Hx0 as [Heq|(y & Hi & Hs)].
    + unfold inExtent in Es. lia.
    + exists y. apply vis; assumption.
  - destruct Hx1 as [Heq|(y & Hi & Hs)].
    + exists ys. assert (xs = maxX b) by (unfold inExtent in Es; lia). subst xs.
      split; assumption.
    + exists y. apply vis; assumption.
  - destruct Hy0 as [Heq|(x & Hi & Hs)].
    + unfold inExtent in Es. lia.
    + exists x. apply vis; assumption.
  - destruct Hy1 as [Heq|(x & Hi & Hs)].
    + exists xs. assert (ys = maxY b) by (unfold inExtent in Es; lia). subst ys.
      split; assumption.
    + exists x. apply vis; assumption.
Qed.

Lemma scan_not_found (s : Surface) :
  hasAlpha (scan (readBack s) (cv_width s) (cv_height s)) = false ->
  forall x y, inExtent s x y -> alphaAt s x y <= 0.
Proof.
  rewrite scan_scanList. intros Hflag x y He.
  destruct (Z.le_gt_cases (alphaAt s x y) 0) as [Hle|Hgt]; [exact Hle|].
  pose proof (scanList_spec (readBack s) (cv_width s) (coords (cv_width s) (cv_height s))
                (mkBounds (cv_width s) (cv_height s) 0 0 false)) as S.
  destruct (ps_cover _ _ _ _ _ S y x) as (Ht & _).
  - apply in_coords. unfold inExtent in He. lia.
  - apply seen_readBack; [exact He|lia].
  - rewrite Ht in Hflag. discriminate.
Qed.

(** X3.  The two loops compute the bounding box of any surface: they end
    with the flag raised exactly when some pixel has a nonzero alpha byte,
    and then their four bounds are the bounding box of those pixels (all of
    them inside, each side touched by one). *)
Theorem scan_computes_bounding_box (s : Surface) :
  (hasAlpha (scan (readBack s) (cv_width s) (cv_height s)) = true ->
   isBoundingBox s
     (minX (scan (readBack s) (cv_width s) (cv_height s)))
     (minY (scan (readBack s) (cv_width s) (cv_height s)))
     (maxX (scan (readBack s) (cv_width s) (cv_height s)))
     (maxY (scan (readBack s) (cv_width s) (cv_height s)))) /\
  (hasAlpha (scan (readBack s) (cv_width s) (cv_height s)) = false ->
   forall x y, inExtent s x y -> alphaAt s x y <= 0).
Proof. split; [apply scan_found_box|apply scan_not_found]. Qed.

Lemma scan_computes_bounding_box_witness :
  isBoundingBox (rectSurface 4 3 1 1 2 2) 1 1 2 2 /\
  forall x y, inExtent (blank 2 2) x y -> alphaAt (blank 2 2) x y <= 0.
Proof.
  destruct (scan_computes_bounding_box (rectSurface 4 3 1 1 2 2)) as [Hfound _].
  destruct (scan_computes_bounding_box (blank 2 2)) as [_ Hnone].
  split.
  - apply Hfound. vm_compute. reflexivity.
  - apply Hnone. vm_compute. reflexivity.
Defined.

Lemma canvasDim_id (dflt v bound : Z) :
  0 <= v <= bound -> bound <= 16000000 -> canvasDim dflt v = v.
Proof.
  intros Hv Hb. unfold canvasDim.
  destruct (Z.leb_spec 0 v); [|lia].
  destruct (Z.leb_spec v 2147483647); [reflexivity|lia].
Qed.

(** What the part of [trimCanvas] after the scan answers, for a box that
    lies in the extent. *)
Lemma cropToBounds_shape (h : Host) (c : CanvasId) (st : State) (s : Surface)
      (b : Bounds) (t : TrimResult.t) :
  heap st !! c = Some s ->
  0 < cv_width s -> 0 < cv_height s ->
  cv_width s * cv_height s <= TRIM_LIMIT ->
  (hasAlpha b = true ->
   0 <= minX b <= maxX b /\ maxX b < cv_width s /\
   0 <= minY b <= maxY b /\ maxY b < cv_height s) ->
  (try_catch (cropToBounds h c (cv_width s) (cv_height s) b) (trimFallback c) st).1
    = Ok (Some t) ->
  exists s',
    heap (try_catch (cropToBounds h c (cv_width s) (cv_height s) b)
                    (trimFallback c) st).2 !! TrimResult.canvas t = Some s' /\
    cv_width s' = TrimResult.width t /\ cv_height s' = TrimResult.height t /\
    1 <= TrimResult.width t <= cv_width s /\
    1 <= TrimResult.height t <= cv_height s.
Proof.
  intros Hs Hw Hh Hlim Hb.
  assert (Hwb : cv_width s <= 16000000) by (unfold TRIM_LIMIT in Hlim; nia).
  assert (Hhb : cv_height s <= 16000000) by (unfold TRIM_LIMIT in Hlim; nia).
  unfold try_catch, cropToBounds.
  destruct (hasAlpha b) eqn:Hflag; simpl; [|discriminate].
  destruct (Hb eq_refl) as (Bx & Bx1 & By & By1).
  destruct ((maxX b - minX b + 1 =? cv_width s) && (maxY b - minY b + 1 =? cv_height s)).
  { simpl. intros E. inversion E; subst t. simpl. exists s. repeat split; try lia.
    exact Hs. }
  assert (Hin : forall k, (heap st ++ [k]) !! c = Some s).
  { intros k. rewrite lookup_app_l by (eapply lookup_lt_Some; eassumption). exact Hs. }
  unfold createCanvas, getContext, drawImage, trimFallback, consoleWarn, bind, log,
    guard_raise, raise, ret, allocSurface, readSurface, writeSurface, surfaceOf.
  simpl.
  rewrite (canvasDim_id 300 (maxX b - minX b + 1) (cv_width s)) by lia.
  rewrite (canvasDim_id 150 (maxY b - minY b + 1) (cv_height s)) by lia.
  destruct (createCanvas_raises h _ _) as [e|]; simpl.
  { rewrite Hs. simpl. intros E. inversion E; subst t. simpl.
    exists s. repeat split; try lia. exact Hs. }
  destruct (getContext_null h (length (heap st))); simpl.
  { intros E. inversion E; subst t. simpl. eexists.
    split; [apply list_lookup_middle; reflexivity|]. simpl. repeat split; lia. }
  destruct (drawImage_raises h c (length (heap st))) as [e|]; simpl.
  { rewrite Hin. simpl. intros E. inversion E; subst t. simpl.
    exists s. repeat split; try lia. apply Hin. }
  intros E. inversion E; subst t. simpl.
  rewrite list_lookup_middle by reflexivity. simpl.
  eexists. split.
  - apply list_lookup_insert_eq. rewrite length_app. simpl. lia.
  - simpl. repeat split; lia.
Qed.

(** X4.  The result guarantee: whenever [trimCanvas] answers a result for a
    canvas, on any host and on any path, the width and height of the result
    are those of the canvas it names, they are at least 1 and at most those
    of the input. *)
Theorem trim_result_shape (h : Host) (c : CanvasId) (st : State) (s : Surface)
        (t : TrimResult.t) :
  heap st !! c = Some s ->
  0 <= cv_width s -> 0 <= cv_height s ->
  (trimCanvas h (InCanvas c) st).1 = Ok (Some t) ->
  exists s',
    heap (trimCanvas h (InCanvas c) st).2 !! TrimResult.canvas t = Some s' /\
    cv_width s' = TrimResult.width t /\ cv_height s' = TrimResult.height t /\
    1 <= TrimResult.width t <= cv_width s /\
    1 <= TrimResult.height t <= cv_height s.
Proof.
  intros Hs Hw0 Hh0.
  destruct (Z.eq_dec (cv_width s) 0) as [Ew|Nw].
  { unfold trimCanvas, inputCanvas, bind, ret, readSurface, surfaceOf. rewrite Hs. simpl.
    rewrite Ew. simpl. discriminate. }
  destruct (Z.eq_dec (cv_height s) 0) as [Eh|Nh].
  { unfold trimCanvas, inputCanvas, bind, ret, readSurface, surfaceOf. rewrite Hs. simpl.
    rewrite Eh, orb_true_r. discriminate. }
  destruct (Z.gtb_spec (cv_width s * cv_height s) TRIM_LIMIT) as [Hbig|Hsmall].
  { rewrite (trim_bypass_path h c st s) by (assumption || lia).
    simpl. intros E. inversion E; subst t. simpl. exists s. repeat split; try lia.
    exact Hs. }
  destruct (getContext_null h c) eqn:Hctx.
  { unfold trimCanvas, inputCanvas, bind, ret, readSurface, surfaceOf. rewrite Hs. simpl.
    destruct (Z.eqb_spec (cv_width s) 0); [contradiction|].
    destruct (Z.eqb_spec (cv_height s) 0); [contradiction|]. simpl.
    destruct (Z.gtb_spec (cv_width s * cv_height s) TRIM_LIMIT); [lia|].
    unfold getContext, bind, log, ret. simpl. rewrite Hctx. discriminate. }
  destruct (getImageData_raises h c) as [e|] eqn:Hget.
  { unfold trimCanvas, inputCanvas, bind, ret, readSurface, surfaceOf. rewrite Hs. simpl.
    destruct (Z.eqb_spec (cv_width s) 0); [contradiction|].
    destruct (Z.eqb_spec (cv_height s) 0); [contradiction|]. simpl.
    destruct (Z.gtb_spec (cv_width s * cv_height s) TRIM_LIMIT); [lia|].
    unfold getContext, bind, log, ret. simpl. rewrite Hctx.
    unfold try_catch, getImageData, bind, log, guard_raise, raise. simpl.
    rewrite Hget. simpl.
    unfold trimFallback, consoleWarn, bind, log, readSurface, surfaceOf, ret.
    simpl. rewrite Hs. simpl. intros E. inversion E; subst t. simpl.
    exists s. repeat split; try lia. exact Hs. }
  rewrite (trimCanvas_scanned h c st s) by assumption.
  apply cropToBounds_shape; try assumption; try lia.
  intros Hflag. pose proof (scan_found_box s Hflag) as Hbox.
  apply boundingBox_positive in Hbox. lia.
Qed.

Lemma trim_result_shape_witness :
  exists s',
    heap (trimCanvas noContextHost (InCanvas 0%nat) (domWith (rectSurface 8 9 2 3 5 7))).2
      !! 1%nat = Some s' /\
    cv_width s' = 4 /\ cv_height s' = 5 /\ 1 <= 4 <= 8 /\ 1 <= 5 <= 9.
Proof.
  apply (trim_result_shape noContextHost 0%nat (domWith (rectSurface 8 9 2 3 5 7))
           (rectSurface 8 9 2 3 5 7) (TrimResult.mk 1%nat 4 5)).
  - reflexivity.
  - simpl; lia.
  - simpl; lia.
  - reflexivity.
Defined.

(** X5.  What a trim computes on a host that works, for any surface below
    the scan ceiling that has a visible pixel: the answer measures the
    bounding box, and each of its pixels is the pixel of the input at the
    same place in the box, colour and alpha alike. *)
Theorem trim_copies_bounding_box (h : Host) (c : CanvasId) (st : State) (s : Surface)
        (x0 y0 x1 y1 : Z) :
  benign h ->
  heap st !! c = Some s ->
  cv_width s * cv_height s <= TRIM_LIMIT ->
  isBoundingBox s x0 y0 x1 y1 ->
  exists c' s',
    (trimCanvas h (InCanvas c) st).1
      = Ok (Some (TrimResult.mk c' (x1 - x0 + 1) (y1 - y0 + 1))) /\
    heap (trimCanvas h (InCanvas c) st).2 !! c' = Some s' /\
    cv_width s' = x1 - x0 + 1 /\ cv_height s' = y1 - y0 + 1 /\
    forall x y, 0 <= x < x1 - x0 + 1 -> 0 <= y < y1 - y0 + 1 ->
                cv_pixel s' x y = cv_pixel s (x0 + x) (y0 + y).
Proof.
  intros Hben Hs Hlim Hbox.
  destruct (boundingBox_positive _ _ _ _ _ Hbox) as (Hw & Hh & Hx & Hx1 & Hy & Hy1).
  destruct (decide (x1 - x0 + 1 = cv_width s /\ y1 - y0 + 1 = cv_height s))
    as [[Ew Eh]|Hproper].
  - assert (x0 = 0) by lia. assert (y0 = 0) by lia. subst x0 y0.
    assert (x1 = cv_width s - 1) by lia. assert (y1 = cv_height s - 1) by lia.
    subst x1 y1.
    destruct (trimCanvas_full_extent h c st s Hs Hbox) as [E1 E2]; [apply Hben|].
    exists c, s. rewrite E1, E2.
    replace (cv_width s - 1 - 0 + 1) with (cv_width s) by lia.
    replace (cv_height s - 1 - 0 + 1) with (cv_height s) by lia.
    repeat split; try assumption.
  - rewrite (trimCanvas_crops h c st s x0 y0 x1 y1) by (auto; lia).
    exists (length (heap st)), (cropped s x0 y0 (x1 - x0 + 1) (y1 - y0 + 1)). simpl.
    split; [reflexivity|]. split; [apply list_lookup_middle; reflexivity|].
    split; [reflexivity|]. split; [reflexivity|].
    intros x y Hxx Hyy. unfold inBox.
    destruct (Z.leb_spec 0 x); [|lia]. destruct (Z.ltb_spec x (0 + (x1 - x0 + 1))); [|lia].
    destruct (Z.leb_spec 0 y); [|lia]. destruct (Z.ltb_spec y (0 + (y1 - y0 + 1))); [|lia].
    simpl. rewrite !Z.sub_0_r. reflexivity.
Qed.

Lemma trim_copies_bounding_box_witness :
  exists c' s',
    (trimCanvas benignHost (InCanvas 0%nat) (domWith (rectSurface 6 5 1 2 4 3))).1
      = Ok (Some (TrimResult.mk c' (4 - 1 + 1) (3 - 2 + 1))) /\
    heap (trimCanvas benignHost (InCanvas 0%nat) (domWith (rectSurface 6 5 1 2 4 3))).2
      !! c' = Some s' /\
    cv_width s' = 4 - 1 + 1 /\ cv_height s' = 3 - 2 + 1 /\
    forall x y, 0 <= x < 4 - 1 + 1 -> 0 <= y < 3 - 2 + 1 ->
                cv_pixel s' x y = cv_pixel (rectSurface 6 5 1 2 4 3) (1 + x) (2 + y).
Proof.
  apply (trim_copies_bounding_box benignHost 0%nat (domWith (rectSurface 6 5 1 2 4 3))
           (rectSurface 6 5 1 2 4 3) 1 2 4 3).
  - exact benignHost_benign.
  - reflexivity.
  - vm_compute; discriminate.
  - apply rectangle_is_bounding_box, rectSurface_rectangle; lia.
Defined.

(** X6.  When the scan has found a box that is a proper part of the extent,
    the cropped canvas is created, and that canvas gives no 2d context
    ([getContext] answers [null]), nothing raises: the copy is skipped and the
    answer is the new canvas of the size of the box, with every pixel
    transparent. *)
Theorem trim_without_context_answers_blank (h : Host) (c : CanvasId) (st : State)
        (s : Surface) (x0 y0 x1 y1 : Z) :
  heap st !! c = Some s ->
  cv_width s * cv_height s <= TRIM_LIMIT ->
  getContext_null h c = false ->
  getImageData_raises h c = None ->
  isBoundingBox s x0 y0 x1 y1 ->
  x1 - x0 + 1 <> cv_width s \/ y1 - y0 + 1 <> cv_height s ->
  createCanvas_raises h (x1 - x0 + 1) (y1 - y0 + 1) = None ->
  getContext_null h (length (heap st)) = true ->
  (trimCanvas h (InCanvas c) st).1
    = Ok (Some (TrimResult.mk (length (heap st)) (x1 - x0 + 1) (y1 - y0 + 1))) /\
  heap (trimCanvas h (InCanvas c) st).2 !! length (heap st)
    = Some (blank (x1 - x0 + 1) (y1 - y0 + 1)).
Proof.
  intros Hs Hlim Hctx Hget Hbox Hproper Hcreate Hnew.
  destruct (boundingBox_positive _ _ _ _ _ Hbox) as (Hw & Hh & Hx & Hx1 & Hy & Hy1).
  assert (Hwb : cv_width s <= 16000000) by (unfold TRIM_LIMIT in Hlim; nia).
  assert (Hhb : cv_height s <= 16000000) by (unfold TRIM_LIMIT in Hlim; nia).
  rewrite (trimCanvas_scanned h c st s) by (auto; lia).
  rewrite (scan_bounding_box _ _ _ _ _ Hbox).
  unfold try_catch, cropToBounds. simpl.
  assert (Hne : (x1 - x0 + 1 =? cv_width s) && (y1 - y0 + 1 =? cv_height s) = false).
  { apply andb_false_iff. destruct Hproper; [left|right]; apply Z.eqb_neq; assumption. }
  rewrite Hne.
  unfold createCanvas, getContext, bind, log, guard_raise, ret, allocSurface. simpl.
  rewrite Hcreate. simpl. rewrite Hnew. simpl.
  rewrite (canvasDim_id 300 (x1 - x0 + 1) (cv_width s)) by lia.
  rewrite (canvasDim_id 150 (y1 - y0 + 1) (cv_height s)) by lia.
  split; [reflexivity|]. apply list_lookup_middle. reflexivity.
Qed.

Lemma trim_without_context_answers_blank_witness :
  (trimCanvas noContextHost (InCanvas 0%nat) (domWith (rectSurface 8 9 2 3 5 7))).1
    = Ok (Some (TrimResult.mk 1%nat (5 - 2 + 1) (7 - 3 + 1))) /\
  heap (trimCanvas noContextHost (InCanvas 0%nat) (domWith (rectSurface 8 9 2 3 5 7))).2
    !! 1%nat = Some (blank (5 - 2 + 1) (7 - 3 + 1)).
Proof.
  apply (trim_without_context_answers_blank noContextHost 0%nat
           (domWith (rectSurface 8 9 2 3 5 7)) (rectSurface 8 9 2 3 5 7) 2 3 5 7).
  - reflexivity.
  - vm_compute; discriminate.
  - reflexivity.
  - reflexivity.
  - apply rectangle_is_bounding_box, rectSurface_rectangle; lia.
  - simpl; lia.
  - reflexivity.
  - reflexivity.
Defined.

(* ================================================================== *)
(** ** Materialization *)
(* ================================================================== *)







(* ================================================================== *)
(** ** The naming transform *)
(* ================================================================== *)

Lemma chars_string (l : list ascii) : chars (string_of_list_ascii l) = l.
Proof. apply list_ascii_of_string_of_list_ascii. Qed.

Lemma chars_app (a b : string) : chars (a ++ b) = chars a ++ chars b.
Proof. induction a as [|c a IH]; simpl; [reflexivity|]. unfold chars in *. simpl. f_equal. exact IH. Qed.

Lemma toLower_safe (c : ascii) : isUnsafe c = false -> isUnsafe (toLower c) = false.
Proof. destruct c as [[] [] [] [] [] [] [] []]; vm_compute; auto. Qed.

Lemma toUpper_safe (c : ascii) : isUnsafe c = false -> isUnsafe (toUpper c) = false.
Proof. destruct c as [[] [] [] [] [] [] [] []]; vm_compute; auto. Qed.

Lemma toLower_space (c : ascii) : isSpace (toLower c) = isSpace c.
Proof. destruct c as [[] [] [] [] [] [] [] []]; vm_compute; auto. Qed.

Lemma toUpper_space (c : ascii) : isSpace (toUpper c) = isSpace c.
Proof. destruct c as [[] [] [] [] [] [] [] []]; vm_compute; auto. Qed.



Section CharLists.
Variable P : ascii -> bool.

Lemma dropSpaces_forall (l : list ascii) :
  forallb P l = true -> forallb P (dropSpaces l) = true.
Proof.
  induction l as [|c l IH]; simpl; [auto|]. intros H.
  apply andb_true_iff in H as [H1 H2].
  destruct (isSpace c); [auto|]. simpl. rewrite H1, H2. reflexivity.
Qed.

Lemma rev_forall (l : list ascii) : forallb P (rev l) = forallb P l.
Proof.
  induction l as [|c l IH]; simpl; [reflexivity|].
  rewrite forallb_app, IH. simpl. rewrite andb_true_r. apply andb_comm.
Qed.

Lemma trim_forall (l : list ascii) :
  forallb P l = true -> forallb P (trim l) = true.
Proof.
  intros H. unfold trim. rewrite rev_forall. apply dropSpaces_forall.
  rewrite rev_forall. apply dropSpaces_forall. exact H.
Qed.

Lemma replaceSpaces_forall (sep l : list ascii) :
  forallb P sep = true -> forallb P l = true ->
  forall inRun, forallb P (replaceSpaces sep inRun l) = true.
Proof.
  intros Hsep. induction l as [|c l IH]; simpl; [auto|]. intros H inRun.
  apply andb_true_iff in H as [H1 H2].
  destruct (isSpace c).
  - rewrite forallb_app, (IH H2). destruct inRun; simpl; [reflexivity|].
    rewrite Hsep. reflexivity.
  - simpl. rewrite H1, (IH H2). reflexivity.
Qed.
End CharLists.

Lemma forallb_map_ascii (P : ascii -> bool) (f : ascii -> ascii) (l : list ascii) :
  forallb P (List.map f l) = forallb (fun c => P (f c)) l.
Proof. induction l as [|c l IH]; simpl; [reflexivity|]. rewrite IH. reflexivity. Qed.

Lemma forallb_impl_ascii (P Q : ascii -> bool) (l : list ascii) :
  (forall c, P c = true -> Q c = true) -> forallb P l = true -> forallb Q l = true.
Proof.
  intros HPQ. induction l as [|c l IH]; simpl; [auto|]. intros H.
  apply andb_true_iff in H as [H1 H2]. rewrite (HPQ _ H1), (IH H2). reflexivity.
Qed.

Lemma capitalizeWords_safe (l : list ascii) :
  forallb (fun c => negb (isUnsafe c)) l = true ->
  forall inWord, forallb (fun c => negb (isUnsafe c)) (capitalizeWords inWord l) = true.
Proof.
  induction l as [|c l IH]; simpl; [auto|]. intros H inWord.
  apply andb_true_iff in H as [H1 H2]. apply negb_true_iff in H1.
  destruct (isWord c); simpl.
  - rewrite (IH H2). destruct inWord.
    + rewrite (toLower_safe c H1). reflexivity.
    + rewrite (toUpper_safe c H1). reflexivity.
  - rewrite H1, (IH H2). reflexivity.
Qed.

(** The sanitized and trimmed base of a name. *)
Lemma base_safe (name : string) :
  forallb (fun c => negb (isUnsafe c))
    (trim (List.map (fun c => if isUnsafe c then "_"%char else c)
                    (list_ascii_of_string name))) = true.
Proof.
  apply trim_forall. rewrite forallb_map_ascii.
  apply forallb_forall. intros c _.
  destruct (isUnsafe c) eqn:E; [reflexivity|]. rewrite E. reflexivity.
Qed.

Lemma transformName_safe (name : string) (style : NamingStyle) :
  unsafeFree (transformName name style) = true /\
  slashFree (transformName name style) = true.
Proof.
  assert (H : unsafeFree (transformName name style) = true).
  { unfold unsafeFree, transformName. rewrite chars_string.
    pose proof (base_safe name) as Hb.
    destruct style.
    - exact Hb.
    - apply replaceSpaces_forall; [reflexivity|].
      rewrite forallb_map_ascii.
      revert Hb. apply forallb_impl_ascii. intros c Hc.
      apply negb_true_iff in Hc. apply negb_true_iff. apply toLower_safe. exact Hc.
    - apply replaceSpaces_forall; [reflexivity|].
      rewrite forallb_map_ascii.
      revert Hb. apply forallb_impl_ascii. intros c Hc.
      apply negb_true_iff in Hc. apply negb_true_iff. apply toLower_safe. exact Hc.
    - apply replaceSpaces_forall; [reflexivity|].
      apply capitalizeWords_safe. exact Hb. }
  split; [exact H|].
  revert H. unfold unsafeFree, slashFree. apply forallb_impl_ascii.
  intros c. destruct c as [[] [] [] [] [] [] [] []]; vm_compute; auto.
Qed.


















(** The PascalCase style is not idempotent: the words it has joined are one
    word for the second pass. *)
Lemma transformName_pascal_twice :
  transformName "big logo" PascalCase = "BigLogo"%string /\
  transformName "BigLogo" PascalCase = "Biglogo"%string.
Proof. split; reflexivity. Qed.

(* ================================================================== *)
(** ** The statistics of the tree *)
(* ================================================================== *)

(** What [countNode] adds to each counter. *)
Lemma countNode_spec (l : PsdLayer) :
  forall acc,
    selected (countNode l acc) = countLayer l (selected acc) /\
    (total (countNode l acc) + groups (countNode l acc)
     = total acc + groups acc + nodesOf l)%nat /\
    (selected (countNode l acc) + total acc
     <= total (countNode l acc) + selected acc)%nat /\
    (selected acc <= selected (countNode l acc))%nat.
Proof.
  assert (fold : forall cs,
    Forall (fun c => forall acc,
      selected (countNode c acc) = countLayer c (selected acc) /\
      (total (countNode c acc) + groups (countNode c acc)
       = total acc + groups acc + nodesOf c)%nat /\
      (selected (countNode c acc) + total acc
       <= total (countNode c acc) + selected acc)%nat /\
      (selected acc <= selected (countNode c acc))%nat) cs ->
    forall acc,
      selected (fold_left (fun a c => countNode c a) cs acc)
        = fold_left (fun a c => countLayer c a) cs (selected acc) /\
      (total (fold_left (fun a c => countNode c a) cs acc)
       + groups (fold_left (fun a c => countNode c a) cs acc)
       = total acc + groups acc + list_sum (List.map nodesOf cs))%nat /\
      (selected (fold_left (fun a c => countNode c a) cs acc) + total acc
       <= total (fold_left (fun a c => countNode c a) cs acc) + selected acc)%nat /\
      (selected acc <= selected (fold_left (fun a c => countNode c a) cs acc))%nat).
  { induction 1 as [|c cs Hc _ IH]; intros acc; simpl; [repeat split; lia|].
    destruct (Hc acc) as (A1 & A2 & A3 & A4).
    destruct (IH (countNode c acc)) as (B1 & B2 & B3 & B4).
    split; [rewrite B1, A1; reflexivity|repeat split; lia]. }
  induction l as [l Hnone|l cs Hsome IH] using PsdLayer_ind; intros acc.
  - destruct l as [i n t vis ch sel w h tp lf]. simpl in *. subst ch.
    destruct t, sel; simpl; repeat split; lia.
  - destruct l as [i n t vis ch sel w h tp lf]. simpl in *. subst ch.
    pose proof (fold cs IH) as F.
    destruct t, sel; simpl;
      match goal with
      | |- context [fold_left _ cs ?a] =>
        destruct (F a) as (B1 & B2 & B3 & B4); simpl in *
      end; (split; [exact B1|repeat split; lia]).
Qed.

Lemma count_spec (layers : list PsdLayer) :
  selected (count layers) = countSelected layers /\
  (total (count layers) + groups (count layers) = nodes layers)%nat /\
  (selected (count layers) <= total (count layers))%nat.
Proof.
  unfold count, countSelected, nodes.
  assert (G : forall acc,
    selected (fold_left (fun a c => countNode c a) layers acc)
      = fold_left (fun a c => countLayer c a) layers (selected acc) /\
    (total (fold_left (fun a c => countNode c a) layers acc)
     + groups (fold_left (fun a c => countNode c a) layers acc)
     = total acc + groups acc + list_sum (List.map nodesOf layers))%nat /\
    (selected (fold_left (fun a c => countNode c a) layers acc) + total acc
     <= total (fold_left (fun a c => countNode c a) layers acc) + selected acc)%nat).
  { induction layers as [|l ls IH]; intros acc; simpl; [repeat split; lia|].
    destruct (countNode_spec l acc) as (A1 & A2 & A3 & A4).
    destruct (IH (countNode l acc)) as (B1 & B2 & B3).
    split; [rewrite B1, A1; reflexivity|repeat split; lia]. }
  destruct (G (mkStats 0 0 0)) as (G1 & G2 & G3). simpl in *.
  repeat split; [exact G1|lia|lia].
Qed.

(** X13.  The statistics of the side panel: the counter [selected] is the
    count that the export takes as its total, it never exceeds the counter
    [total], and [total] and [groups] together count every node of the tree
    once. *)
Theorem count_statistics (layers : list PsdLayer) :
  selected (count layers) = countSelected layers /\
  (total (count layers) + groups (count layers) = nodes layers)%nat /\
  (selected (count layers) <= total (count layers))%nat.
Proof. apply count_spec. Qed.

(* ================================================================== *)
(** ** The selection toggle *)
(* ================================================================== *)

Lemma map_ext_Forall_layers (f g : PsdLayer -> PsdLayer) (cs : list PsdLayer) :
  Forall (fun c => f c = g c) cs -> List.map f cs = List.map g cs.
Proof. induction 1 as [|c cs Hc _ IH]; simpl; [reflexivity|]. rewrite Hc, IH. reflexivity. Qed.

Lemma setAll_setAll (b n : bool) (l : PsdLayer) :
  setAll b (setAll n l) = setAll b l.
Proof.
  induction l as [l Hnone|l cs Hsome IH] using PsdLayer_ind.
  - destruct l as [i nm t vis ch sel w h tp lf]. simpl in *. subst ch. reflexivity.
  - destruct l as [i nm t vis ch sel w h tp lf]. simpl in *. subst ch.
    f_equal. f_equal. rewrite List.map_map. apply map_ext_Forall_layers. exact IH.
Qed.

Lemma setAll_updateLayer (b : bool) (target : string) (l : PsdLayer) :
  setAll b (updateLayer target l) = setAll b l.
Proof.
  induction l as [l Hnone|l cs Hsome IH] using PsdLayer_ind.
  - destruct l as [i nm t vis ch sel w h tp lf]. simpl in *. subst ch.
    destruct (String.eqb i target); reflexivity.
  - destruct l as [i nm t vis ch sel w h tp lf]. simpl in *. subst ch.
    destruct (String.eqb i target); simpl; f_equal; f_equal; rewrite List.map_map.
    + apply map_ext_Forall_layers. apply Forall_forall. intros c _. apply setAll_setAll.
    + apply map_ext_Forall_layers. exact IH.
Qed.

Lemma wellFormedLayer_setAll (b : bool) (l : PsdLayer) :
  wellFormedLayer (setAll b l) = wellFormedLayer l.
Proof.
  induction l as [l Hnone|l cs Hsome IH] using PsdLayer_ind.
  - destruct l as [i nm t vis ch sel w h tp lf]. simpl in *. subst ch. reflexivity.
  - destruct l as [i nm t vis ch sel w h tp lf]. simpl in *. subst ch.
    destruct t; [reflexivity|].
    induction IH as [|c cs Hc _ IHc]; simpl; [reflexivity|]. rewrite Hc, IHc. reflexivity.
Qed.

Lemma idsOf_setAll (b : bool) (l : PsdLayer) : idsOf (setAll b l) = idsOf l.
Proof.
  induction l as [l Hnone|l cs Hsome IH] using PsdLayer_ind.
  - destruct l as [i nm t vis ch sel w h tp lf]. simpl in *. subst ch. reflexivity.
  - destruct l as [i nm t vis ch sel w h tp lf]. simpl in *. subst ch. f_equal.
    induction IH as [|c cs Hc _ IHc]; simpl; [reflexivity|]. rewrite Hc, IHc. reflexivity.
Qed.

Lemma toggle_keeps_shape (target : string) (layers : list PsdLayer) (b : bool) :
  List.map (setAll b) (toggleSelect target layers) = List.map (setAll b) layers /\
  wellFormed (toggleSelect target layers) = wellFormed layers /\
  flat_map idsOf (toggleSelect target layers) = flat_map idsOf layers.
Proof.
  unfold toggleSelect, wellFormed.
  induction layers as [|l ls (IH1 & IH2 & IH3)]; simpl; [repeat split|].
  rewrite IH1, IH2, IH3, setAll_updateLayer.
  rewrite <- (wellFormedLayer_setAll false (updateLayer target l)).
  rewrite <- (idsOf_setAll false (updateLayer target l)).
  rewrite setAll_updateLayer, wellFormedLayer_setAll, idsOf_setAll.
  repeat split.
Qed.

(** X14.  A toggle changes nothing but selection flags: with the flags set
    to one value everywhere, the tree after the toggle is the tree before;
    the identifiers are the same in the same order, and the tree is well
    formed exactly when it was. *)
Theorem toggleSelect_keeps_shape (target : string) (layers : list PsdLayer) (b : bool) :
  List.map (setAll b) (toggleSelect target layers) = List.map (setAll b) layers /\
  wellFormed (toggleSelect target layers) = wellFormed layers /\
  flat_map idsOf (toggleSelect target layers) = flat_map idsOf layers.
Proof. apply toggle_keeps_shape. Qed.

Lemma updateLayer_absent (target : string) (l : PsdLayer) :
  ~ In target (idsOf l) -> updateLayer target l = l.
Proof.
  induction l as [l Hnone|l cs Hsome IH] using PsdLayer_ind.
  - destruct l as [i nm t vis ch sel w h tp lf]. simpl in *. subst ch. intros Hn.
    destruct (String.eqb_spec i target) as [E|_]; [exfalso; apply Hn; auto|reflexivity].
  - destruct l as [i nm t vis ch sel w h tp lf]. simpl in *. subst ch. intros Hn.
    destruct (String.eqb_spec i target) as [E|_]; [exfalso; apply Hn; auto|].
    f_equal. f_equal.
    assert (Hcs : ~ In target (flat_map idsOf cs)) by tauto. clear Hn.
    induction IH as [|c cs Hc _ IHc]; simpl; [reflexivity|].
    simpl in Hcs. rewrite in_app_iff in Hcs.
    rewrite Hc, IHc by tauto. reflexivity.
Qed.

(** X15.  A toggle on an identifier that no node of the tree carries leaves
    the tree as it is. *)
Theorem toggleSelect_absent (target : string) (layers : list PsdLayer) :
  ~ In target (flat_map idsOf layers) -> toggleSelect target layers = layers.
Proof.
  unfold toggleSelect. induction layers as [|l ls IH]; simpl; [reflexivity|].
  intros Hn. rewrite in_app_iff in Hn.
  rewrite updateLayer_absent, IH by tauto. reflexivity.
Qed.

Lemma toggleSelect_absent_witness :
  toggleSelect "zz" mirrorTree = mirrorTree.
Proof.
  apply (toggleSelect_absent "zz" mirrorTree).
  simpl. intuition discriminate.
Defined.

Lemma selectedLeavesOf_setAll (n : bool) (l : PsdLayer) :
  List.map id (selectedLeavesOf (setAll n l))
  = if n then List.map id (leavesOf l) else [].
Proof.
  induction l as [l Hnone|l cs Hsome IH] using PsdLayer_ind.
  - destruct l as [i nm t vis ch sel w h tp lf]. simpl in *. subst ch.
    destruct t, n; reflexivity.
  - destruct l as [i nm t vis ch sel w h tp lf]. simpl in *. subst ch.
    destruct t; [destruct n; reflexivity|].
    induction IH as [|c cs Hc _ IHc]; simpl; [destruct n; reflexivity|].
    rewrite !List.map_app, Hc, IHc. destruct n; reflexivity.
Qed.

Lemma updateLayer_target (target : string) (l : PsdLayer) :
  id l = target -> updateLayer target l = setAll (negb (isSelected l)) l.
Proof.
  intros E. destruct l as [i nm t vis ch sel w h tp lf]. simpl in *. subst i.
  rewrite String.eqb_refl. reflexivity.
Qed.

(** X16.  A toggle on a node selects or clears everything under it: when the
    node was not selected, the selected leaves of the new node are all the
    leaves the walk reaches under it (the node itself when it is a layer);
    when it was selected, the new node has no selected leaf. *)
Theorem toggleSelect_sets_subtree (target : string) (l : PsdLayer) :
  id l = target ->
  List.map id (selectedLeavesOf (updateLayer target l))
  = if isSelected l then [] else List.map id (leavesOf l).
Proof.
  intros E. rewrite (updateLayer_target target l E), selectedLeavesOf_setAll.
  destruct (isSelected l); reflexivity.
Qed.

Lemma toggleSelect_sets_subtree_witness :
  List.map id (selectedLeavesOf
                 (updateLayer "g" (groupNode "g" "GroupA"
                    [leafNode "l1" "leaf1" true; leafNode "l2" "leaf2" false])))
  = ["l1"; "l2"]%string.
Proof.
  apply (toggleSelect_sets_subtree "g"
           (groupNode "g" "GroupA"
              [leafNode "l1" "leaf1" true; leafNode "l2" "leaf2" false])).
  reflexivity.
Defined.

Lemma updateLayer_twice (target : string) (l : PsdLayer) :
  targetChildless target l = true ->
  updateLayer target (updateLayer target l) = l.
Proof.
  induction l as [l Hnone|l cs Hsome IH] using PsdLayer_ind.
  - destruct l as [i nm t vis ch sel w h tp lf]. simpl in *. subst ch. intros _.
    destruct (String.eqb i target) eqn:E; simpl; rewrite E; [|reflexivity].
    rewrite negb_involutive. reflexivity.
  - destruct l as [i nm t vis ch sel w h tp lf]. simpl in *. subst ch. intros Hc.
    apply andb_true_iff in Hc as [H1 H2].
    destruct (String.eqb i target) eqn:E; simpl; rewrite E.
    + simpl in H1. destruct cs; [|discriminate]. simpl.
      rewrite negb_involutive. reflexivity.
    + f_equal. f_equal. rewrite List.map_map.
      clear H1. induction IH as [|c cs Hc _ IHc]; simpl; [reflexivity|].
      simpl in H2. apply andb_true_iff in H2 as [H2 H3].
      rewrite (Hc H2), (IHc H3). reflexivity.
Qed.

(** X17.  When no node that carries the identifier has a child, toggling
    twice gives back the tree. *)
Theorem toggleSelect_twice (target : string) (layers : list PsdLayer) :
  forallb (targetChildless target) layers = true ->
  toggleSelect target (toggleSelect target layers) = layers.
Proof.
  unfold toggleSelect. induction layers as [|l ls IH]; simpl; [reflexivity|].
  intros H. apply andb_true_iff in H as [H1 H2].
  rewrite (updateLayer_twice target l H1), (IH H2). reflexivity.
Qed.

Lemma toggleSelect_twice_witness :
  toggleSelect "l1" (toggleSelect "l1" mirrorTree) = mirrorTree.
Proof.
  apply (toggleSelect_twice "l1" mirrorTree). reflexivity.
Defined.

(** On a group with leaves of both kinds the second toggle does not give the
    tree back: everything under the group ends selected or cleared. *)
Lemma toggleSelect_twice_group :
  toggleSelect "g" (toggleSelect "g" mirrorTree) <> mirrorTree.
Proof. vm_compute. discriminate. Qed.

(* ================================================================== *)
(** ** The loader *)
(* ================================================================== *)

Lemma AgLayer_ind (P : AgLayer -> Prop) :
  (forall l, ag_children l = None -> P l) ->
  (forall l cs, ag_children l = Some cs -> Forall P cs -> P l) ->
  forall l, P l.
Proof.
  intros Hleaf Hnode. fix IH 1. intros l.
  destruct l as [n v [cs|] w h tp lf cv cd] eqn:El.
  - apply (Hnode _ cs); [reflexivity|].
    clear El. induction cs as [|c r IHr]; constructor; [apply IH|apply IHr].
  - apply Hleaf. reflexivity.
Qed.

Section Loader.
Variable randomId : nat -> string.
Variable dfltName : string.

#[local] Abbreviation loadOne := (transformLayer randomId dfltName).
#[local] Abbreviation loadAll := (transformLayers randomId dfltName).

(** The loop inside [transformLayer] is [transformLayers]. *)
Lemma transformLayer_group (l : AgLayer) (cs : list AgLayer)
      (st : nat * gmap string RawLayer.t) :
  ag_children l = Some cs ->
  loadOne l st =
  (mkPsdLayer (randomId st.1) (nameOr dfltName (ag_name l)) group (isVisible l)
              (Some (loadAll cs (S st.1, <[randomId st.1 := rawOf l]> st.2)).1) false
              (default 0 (ag_width l)) (default 0 (ag_height l))
              (default 0 (ag_top l)) (default 0 (ag_left l)),
   (loadAll cs (S st.1, <[randomId st.1 := rawOf l]> st.2)).2).
Proof.
  intros E. destruct l as [n v ch w h tp lf cv cd]. simpl in E. subst ch.
  cbn [transformLayer ag_children].
  set (st0 := (S st.1, <[randomId st.1 := _]> st.2)).
  assert (G : forall st1,
    (fix go (cs0 : list AgLayer) (st2 : nat * gmap string RawLayer.t) {struct cs0}
       : list PsdLayer * (nat * gmap string RawLayer.t) :=
       match cs0 with
       | [] => ([], st2)
       | c :: rest =>
         let r1 := loadOne c st2 in
         let r2 := go rest r1.2 in (r1.1 :: r2.1, r2.2)
       end) cs st1 = loadAll cs st1).
  { induction cs as [|c cs IHc]; intros st1; simpl; [reflexivity|].
    rewrite IHc. reflexivity. }
  rewrite G. reflexivity.
Qed.

Lemma transformLayer_leaf (l : AgLayer) (st : nat * gmap string RawLayer.t) :
  ag_children l = None ->
  loadOne l st =
  (mkPsdLayer (randomId st.1) (nameOr dfltName (ag_name l)) layer (isVisible l) None
              (isVisible l)
              (default 0 (ag_width l)) (default 0 (ag_height l))
              (default 0 (ag_top l)) (default 0 (ag_left l)),
   (S st.1, <[randomId st.1 := rawOf l]> st.2)).
Proof.
  intros E. destruct l as [n v ch w h tp lf cv cd]. simpl in E. subst ch. reflexivity.
Qed.

Lemma Loaded_nil (st : nat * gmap string RawLayer.t) : Loaded st [] st 0.
Proof. constructor; simpl; auto. Qed.

Lemma Loaded_app (st st1 st2 : nat * gmap string RawLayer.t) (a b : list PsdLayer)
      (n1 n2 : nat) :
  Loaded st a st1 n1 -> Loaded st1 b st2 n2 -> Loaded st (a ++ b) st2 (n1 + n2).
Proof.
  intros [W1 K1 N1 C1 D1] [W2 K2 N2 C2 D2]. constructor.
  - rewrite forallb_app, W1, W2. reflexivity.
  - intros k Hk. apply K2, K1, Hk.
  - rewrite flat_map_app. apply Forall_app. split; [|exact N2].
    eapply Forall_impl; [exact N1|]. intros x Hx. apply K2. exact Hx.
  - rewrite flat_map_app, length_app, C1, C2. reflexivity.
  - rewrite List.map_app, list_sum_app. lia.
Qed.

Lemma loadAll_from_each (ls : list AgLayer) :
  Forall (fun l => forall st,
            Loaded st [(loadOne l st).1] (loadOne l st).2 (visibleLeavesOf l)) ls ->
  forall st, Loaded st (loadAll ls st).1 (loadAll ls st).2
                    (list_sum (List.map visibleLeavesOf ls)).
Proof.
  induction 1 as [|l ls Hl _ IH]; intros st; simpl; [apply Loaded_nil|].
  apply (Loaded_app st (loadOne l st).2 _ [(loadOne l st).1]); [apply Hl|apply IH].
Qed.

Lemma loadOne_loaded (l : AgLayer) :
  forall st, Loaded st [(loadOne l st).1] (loadOne l st).2 (visibleLeavesOf l).
Proof.
  induction l as [l Hnone|l cs Hsome IH] using AgLayer_ind; intros st.
  - rewrite (transformLayer_leaf l st Hnone). simpl.
    assert (Hv : visibleLeavesOf l = if isVisible l then 1%nat else 0%nat).
    { destruct l as [n v ch w h tp lf cv cd]. simpl in *. subst ch. reflexivity. }
    constructor; simpl.
    + reflexivity.
    + intros k Hk. apply lookup_insert_is_Some'. right. exact Hk.
    + repeat constructor. unfold hasPayload. simpl.
      apply lookup_insert_is_Some'. left. reflexivity.
    + rewrite Hv. destruct (isVisible l); reflexivity.
    + lia.
  - rewrite (transformLayer_group l cs st Hsome). simpl.
    pose proof (loadAll_from_each cs IH (S st.1, <[randomId st.1 := rawOf l]> st.2))
      as [W K N C D].
    assert (Hv : visibleLeavesOf l = list_sum (List.map visibleLeavesOf cs)).
    { destruct l as [n v ch w h tp lf cv cd]. simpl in *. subst ch. reflexivity. }
    simpl in *. constructor; simpl.
    + rewrite W. reflexivity.
    + intros k Hk. apply K. apply lookup_insert_is_Some'. right. exact Hk.
    + constructor.
      * unfold hasPayload. simpl. apply K.
        apply lookup_insert_is_Some'. left. reflexivity.
      * rewrite app_nil_r. exact N.
    + rewrite app_nil_r, Hv. exact C.
    + rewrite D. lia.
Qed.

Lemma loadAll_loaded (ls : list AgLayer) (st : nat * gmap string RawLayer.t) :
  Loaded st (loadAll ls st).1 (loadAll ls st).2 (list_sum (List.map visibleLeavesOf ls)).
Proof.
  apply loadAll_from_each. apply Forall_forall. intros l _. apply loadOne_loaded.
Qed.

End Loader.

Lemma selectedLeavesOf_nodes (l : PsdLayer) :
  forall x, In x (selectedLeavesOf l) -> In x (allNodesOf l).
Proof.
  induction l as [l Hnone|l cs Hsome IH] using PsdLayer_ind; intros x.
  - destruct l as [i nm t vis ch sel w h tp lf]. simpl in *. subst ch.
    destruct t, sel; simpl; tauto.
  - destruct l as [i nm t vis ch sel w h tp lf]. simpl in *. subst ch.
    destruct t; [destruct sel; simpl; tauto|].
    intros Hx. right. apply in_flat_map in Hx as (c & Hc & Hx).
    apply in_flat_map. exists c. split; [exact Hc|].
    rewrite Forall_forall in IH. apply (IH c); [apply list_elem_of_In; exact Hc|exact Hx].
Qed.

(** X18.  What loading a document establishes, for every decoded tree and
    every stream of identifiers: the tree made is well formed (only groups
    have children), every node of it, and so every selected leaf, has its
    raw record in the lookup table, even when identifiers collide, and the
    table keeps the records it had. *)
Theorem transformLayers_establishes (randomId : nat -> string) (dfltName : string)
        (ls : list AgLayer) (st : nat * gmap string RawLayer.t) :
  wellFormed (transformLayers randomId dfltName ls st).1 = true /\
  Forall (hasPayload (transformLayers randomId dfltName ls st).2.2)
         (flat_map allNodesOf (transformLayers randomId dfltName ls st).1) /\
  Forall (hasPayload (transformLayers randomId dfltName ls st).2.2)
         (selectedLeaves (transformLayers randomId dfltName ls st).1) /\
  (forall k, is_Some (st.2 !! k) ->
             is_Some ((transformLayers randomId dfltName ls st).2.2 !! k)).
Proof.
  destruct (loadAll_loaded randomId dfltName ls st) as [W K N C D].
  split; [exact W|]. split; [exact N|]. split; [|exact K].
  rewrite Forall_forall in N. apply Forall_forall. intros x Hx. apply N.
  apply list_elem_of_In. apply list_elem_of_In in Hx.
  unfold selectedLeaves in Hx. apply in_flat_map in Hx as (c & Hc & Hx).
  apply in_flat_map. exists c. split; [exact Hc|].
  apply selectedLeavesOf_nodes. exact Hx.
Qed.


Lemma loadAll_establishes_witness :
  wellFormed (transformLayers idStream "x" agDocument (0%nat, ∅)).1 = true /\
  Forall (hasPayload (transformLayers idStream "x" agDocument (0%nat, ∅)).2.2)
         (flat_map allNodesOf (transformLayers idStream "x" agDocument (0%nat, ∅)).1) /\
  Forall (hasPayload (transformLayers idStream "x" agDocument (0%nat, ∅)).2.2)
         (selectedLeaves (transformLayers idStream "x" agDocument (0%nat, ∅)).1) /\
  (forall k, is_Some ((0%nat, ∅ : gmap string RawLayer.t).2 !! k) ->
             is_Some ((transformLayers idStream "x" agDocument (0%nat, ∅)).2.2 !! k)).
Proof.
  apply (transformLayers_establishes idStream "x" agDocument (0%nat, ∅)).
Defined.

(* ================================================================== *)
(** ** What the walk keeps *)
(* ================================================================== *)

Lemma step_div (n y : nat) :
  (S n / y - n / y = if (S n mod y =? 0) then 1 else 0)%nat.
Proof.
  destruct y as [|y]; [reflexivity|].
  pose proof (Nat.div_mod_eq n (S y)) as D1.
  pose proof (Nat.div_mod_eq (S n) (S y)) as D2.
  pose proof (Nat.mod_upper_bound n (S y) ltac:(lia)) as B1.
  pose proof (Nat.mod_upper_bound (S n) (S y) ltac:(lia)) as B2.
  destruct (Nat.eqb_spec (S n mod S y) 0) as [E|E]; nia.
Qed.

Lemma div_mono (a b y : nat) : (a <= b -> a / y <= b / y)%nat.
Proof. intros H. apply Nat.Div0.div_le_mono. exact H. Qed.

Lemma isFolderPath_png (a : string) : isFolderPath (a ++ ".png") = false.
Proof.
  unfold isFolderPath. rewrite chars_app, rev_app_distr. reflexivity.
Qed.

Lemma string_app_assoc (a b c : string) : ((a ++ b) ++ c = a ++ (b ++ c))%string.
Proof.
  rewrite <- (string_of_list_ascii_of_string ((a ++ b) ++ c)).
  rewrite <- (string_of_list_ascii_of_string (a ++ (b ++ c))).
  fold (chars ((a ++ b) ++ c)). fold (chars (a ++ (b ++ c))).
  rewrite !chars_app, app_assoc. reflexivity.
Qed.

Section WalkKeeps.
Variable v : Variant.
Variable env : Env.
Variable layerMap : gmap string RawLayer.t.
Variable namingStyle : NamingStyle.
Variable useFolderPrefix : bool.
Variable totalLayers : nat.
Variable zip : Zip.JSZip.

#[local] Abbreviation stepLeaf := (processLeaf v env totalLayers zip).
#[local] Abbreviation stepLayer :=
  (processLayer v env layerMap namingStyle useFolderPrefix totalLayers zip).
#[local] Abbreviation stepLevel :=
  (processLevel v env layerMap namingStyle useFolderPrefix totalLayers zip).
#[local] Abbreviation Walked := (Walked v totalLayers).

Lemma Walked_refl (acc : nat * Export) : Walked acc 0 acc.
Proof.
  constructor; auto.
  - exists []. rewrite app_nil_r, Nat.sub_diag. repeat split; auto.
Qed.

Lemma Walked_trans (a b c : nat * Export) (k1 k2 : nat) :
  Walked a k1 b -> Walked b k2 c -> Walked a (k1 + k2) c.
Proof.
  intros [E1 (m1 & O1 & P1 & G1 & T1 & Y1) H1 D1 I1]
         [E2 (m2 & O2 & P2 & G2 & T2 & Y2) H2 D2 I2].
  constructor.
  - lia.
  - exists (m1 ++ m2). repeat split.
    + rewrite O2, O1, app_assoc. reflexivity.
    + rewrite processedCounts_app, P1, P2, E1, seq_app. reflexivity.
    + rewrite in_app_iff. tauto.
    + apply Forall_app. split; assumption.
    + rewrite List.filter_app, length_app, Y1, Y2.
      pose proof (div_mono a.1 b.1 (yieldEvery v) ltac:(lia)).
      pose proof (div_mono b.1 c.1 (yieldEvery v) ltac:(lia)). lia.
  - etransitivity; eassumption.
  - intros p Hp Ha. apply D2; [exact Hp|]. apply D1; assumption.
  - intros Ha. apply I2, I1, Ha.
Qed.

(** The step of a processed leaf. *)
Lemma processLeaf_walked (l : PsdLayer) (cleanName : string) (raw : RawLayer.t)
      (currentZip : Zip.JSZip) (prefixPath : string) (acc : nat * Export) :
  Walked acc 1 (stepLeaf l cleanName raw currentZip prefixPath acc).
Proof.
  pose proof (trimCanvas_frame (host env) (InLayer raw) (dom acc.2)) as Hframe.
  pose proof (step_div acc.1 (yieldEvery v)) as Hy.
  assert (Hkey : forall (t : Zip.JSZip) p,
             isFolderPath p = true ->
             (Zip.root t ++ prefixPath ++ cleanName ++ ".png")%string <> p).
  { intros t p Hp E. subst p.
    rewrite <- !string_app_assoc, isFolderPath_png in Hp. discriminate. }
  unfold processLeaf, runTrim, emit. simpl.
  destruct (trimCanvas (host env) (InLayer raw) (dom acc.2)) as [[[t|]|e] d];
    simpl in *.
  - destruct (toBlob env (surfaceOf d (TrimResult.canvas t))) as [blob|]; simpl.
    + destruct (S acc.1 mod yieldEvery v =? 0)%nat; simpl; constructor; simpl;
        try exact Hframe; try lia.
      * eexists. rewrite <- !app_assoc. simpl. split; [reflexivity|].
        repeat split; simpl; [intuition discriminate|repeat constructor|].
        replace (acc.1 + 1)%nat with (S acc.1) by lia. lia.
      * intros p Hp Hd. unfold Zip.file, Zip.Files.
        rewrite lookup_insert_ne by (apply Hkey; exact Hp). exact Hd.
      * intros Hinv p e Hp. unfold Zip.file, Zip.Files.
        rewrite lookup_insert_ne by (apply Hkey; exact Hp). apply Hinv. exact Hp.
      * eexists. rewrite <- !app_assoc. simpl. split; [reflexivity|].
        repeat split; simpl; [intuition discriminate|repeat constructor|].
        replace (acc.1 + 1)%nat with (S acc.1) by lia. lia.
      * intros p Hp Hd. unfold Zip.file, Zip.Files.
        rewrite lookup_insert_ne by (apply Hkey; exact Hp). exact Hd.
      * intros Hinv p e Hp. unfold Zip.file, Zip.Files.
        rewrite lookup_insert_ne by (apply Hkey; exact Hp). apply Hinv. exact Hp.
    + destruct (S acc.1 mod yieldEvery v =? 0)%nat; simpl; constructor; simpl;
        try exact Hframe; try lia; auto.
      * eexists. rewrite <- !app_assoc. simpl. split; [reflexivity|].
        repeat split; simpl; [intuition discriminate|repeat constructor|].
        replace (acc.1 + 1)%nat with (S acc.1) by lia. lia.
      * eexists. split; [reflexivity|].
        repeat split; simpl; [intuition discriminate|repeat constructor|].
        replace (acc.1 + 1)%nat with (S acc.1) by lia. lia.
  - destruct (S acc.1 mod yieldEvery v =? 0)%nat; simpl; constructor; simpl;
      try exact Hframe; try lia; auto.
    + eexists. rewrite <- !app_assoc. simpl. split; [reflexivity|].
      repeat split; simpl; [intuition discriminate|repeat constructor|].
      replace (acc.1 + 1)%nat with (S acc.1) by lia. lia.
    + eexists. split; [reflexivity|].
      repeat split; simpl; [intuition discriminate|repeat constructor|].
      replace (acc.1 + 1)%nat with (S acc.1) by lia. lia.
  - destruct (S acc.1 mod yieldEvery v =? 0)%nat; simpl; constructor; simpl;
      try exact Hframe; try lia; auto.
    + eexists. rewrite <- !app_assoc. simpl. split; [reflexivity|].
      repeat split; simpl; [intuition discriminate|repeat constructor|].
      replace (acc.1 + 1)%nat with (S acc.1) by lia. lia.
    + eexists. split; [reflexivity|].
      repeat split; simpl; [intuition discriminate|repeat constructor|].
      replace (acc.1 + 1)%nat with (S acc.1) by lia. lia.
Qed.

(** The step of a group before its children: the folder entry. *)
Lemma folder_walked (currentZip : Zip.JSZip) (cleanName : string) (acc : nat * Export) :
  Walked acc 0
    (acc.1, emit (ZipFolder (Zip.root currentZip ++ cleanName))
                 (mkExport (dom acc.2)
                           (Zip.folder currentZip cleanName (files acc.2)).2
                           (out acc.2))).
Proof.
  constructor; simpl.
  - lia.
  - eexists. split; [reflexivity|]. rewrite Nat.sub_diag.
    repeat split; simpl; [intuition discriminate|repeat constructor].
  - reflexivity.
  - intros p Hp Hd. unfold Zip.Files in *.
    case_match eqn:E; [exact Hd|].
    destruct (decide ((Zip.root currentZip ++ cleanName ++ "/")%string = p)) as [Heq|Hne].
    + subst p. congruence.
    + rewrite lookup_insert_ne by exact Hne. exact Hd.
  - intros Hinv p e Hp. unfold Zip.Files in *.
    case_match eqn:E; [apply Hinv; exact Hp|].
    destruct (decide ((Zip.root currentZip ++ cleanName ++ "/")%string = p)) as [Heq|Hne].
    + subst p. rewrite lookup_insert_eq. intros H. inversion H. reflexivity.
    + rewrite lookup_insert_ne by exact Hne. apply Hinv. exact Hp.
Qed.

Lemma processLevel_walked_each (ls : list PsdLayer) :
  Forall (fun l => forall z p acc,
            Walked acc (length (List.filter (hasPayloadb layerMap) (selectedLeavesOf l)))
                   (stepLayer l z p acc)) ls ->
  forall z p acc,
    Walked acc (length (List.filter (hasPayloadb layerMap)
                                    (flat_map selectedLeavesOf ls)))
           (fold_left (fun a c => stepLayer c z p a) ls acc).
Proof.
  induction 1 as [|l ls Hl _ IH]; intros z p acc; simpl.
  - apply Walked_refl.
  - rewrite List.filter_app, length_app.
    eapply Walked_trans; [apply Hl|apply IH].
Qed.

Lemma processLayer_walked (l : PsdLayer) :
  forall z p acc,
    Walked acc (length (List.filter (hasPayloadb layerMap) (selectedLeavesOf l)))
           (stepLayer l z p acc).
Proof.
  induction l as [l Hnone|l cs Hsome IH] using PsdLayer_ind; intros z p acc.
  - destruct l as [i n t vis ch sel w h tp lf]. simpl in *. subst ch.
    destruct t; simpl in *.
    + destruct sel; simpl in *; [|apply Walked_refl].
      unfold hasPayloadb. simpl.
      destruct (layerMap !! i) as [raw|]; simpl;
        [apply processLeaf_walked|apply Walked_refl].
    + apply folder_walked.
  - destruct l as [i n t vis ch sel w h tp lf]. simpl in *. subst ch.
    destruct t; simpl in *.
    + destruct sel; simpl in *; [|apply Walked_refl].
      unfold hasPayloadb. simpl.
      destruct (layerMap !! i) as [raw|]; simpl;
        [apply processLeaf_walked|apply Walked_refl].
    + change (length (List.filter (hasPayloadb layerMap) (flat_map selectedLeavesOf cs)))
        with (0 + length (List.filter (hasPayloadb layerMap)
                                      (flat_map selectedLeavesOf cs)))%nat.
      eapply Walked_trans; [apply folder_walked|].
      apply (processLevel_walked_each cs IH).
Qed.

Lemma processLevel_walked (layers : list PsdLayer) (z : Zip.JSZip) (p : string)
      (acc : nat * Export) :
  Walked acc (length (processedLeaves layerMap layers)) (stepLevel layers z p acc).
Proof.
  apply processLevel_walked_each. apply Forall_forall. intros l _.
  apply processLayer_walked.
Qed.

End WalkKeeps.

(* ================================================================== *)
(** ** The whole export *)
(* ================================================================== *)

(** The shape of an export that is not stopped by one of the two guards:
    the walk from an empty archive, the packing message, the request to
    finalize, and one of three endings. *)
Lemma exportAssets_runs (v : Variant) (env : Env) (layerMap : gmap string RawLayer.t)
      (namingStyle : NamingStyle) (useFolderPrefix : bool)
      (layers : list PsdLayer) (st : Export) :
  layers <> [] ->
  abortOnZero v && (countSelected layers =? 0)%nat = false ->
  exists o tail,
    exportAssets v env layerMap namingStyle useFolderPrefix layers st
    = (o, mkExport
            (dom (processLevel v env layerMap namingStyle useFolderPrefix
                    (countSelected layers) Zip.newZip layers Zip.newZip ""
                    (0%nat, mkExport (dom st) ∅
                              (out st ++ [SetState exporting 0 MsgInit]))).2)
            (files (processLevel v env layerMap namingStyle useFolderPrefix
                    (countSelected layers) Zip.newZip layers Zip.newZip ""
                    (0%nat, mkExport (dom st) ∅
                              (out st ++ [SetState exporting 0 MsgInit]))).2)
            (out (processLevel v env layerMap namingStyle useFolderPrefix
                    (countSelected layers) Zip.newZip layers Zip.newZip ""
                    (0%nat, mkExport (dom st) ∅
                              (out st ++ [SetState exporting 0 MsgInit]))).2
             ++ [SetState exporting (packingProgress v) MsgPacking; ZipGenerate]
             ++ tail)) /\
    (tail = [Download; SetState ready 100 MsgDone] \/
     (exists s p, onFinalizeFailure v = Some (s, p) /\
                  tail = [SetState s p MsgInterrupted]) \/
     (onFinalizeFailure v = None /\ tail = [])).
Proof.
  intros Hne Hgo. unfold exportAssets.
  destruct layers as [|l0 ls] eqn:El; [contradiction|]. rewrite <- El in *.
  rewrite Hgo. unfold emit at 1 2. simpl.
  destruct (processLevel _ _ _ _ _ _ _ _ _ _ _) as [n st1]. simpl.
  unfold emit. simpl.
  destruct (generateAsync env (files st1)) as [content|].
  - eexists _, _. split; [|left; reflexivity].
    simpl. rewrite <- !app_assoc. reflexivity.
  - destruct (onFinalizeFailure v) as [[s p]|].
    + eexists _, _. split; [|right; left; eexists _, _; split; reflexivity].
      simpl. rewrite <- !app_assoc. reflexivity.
    + eexists _, _. split; [|right; right; split; reflexivity].
      simpl. rewrite <- !app_assoc. reflexivity.
Qed.

Lemma filter_length_le_layers (f : PsdLayer -> bool) (l : list PsdLayer) :
  (length (List.filter f l) <= length l)%nat.
Proof. induction l as [|x l IH]; simpl; [lia|]. destruct (f x); simpl; lia. Qed.

Lemma processedLeaves_le (layerMap : gmap string RawLayer.t) (layers : list PsdLayer) :
  (length (processedLeaves layerMap layers) <= countSelected layers)%nat.
Proof.
  unfold processedLeaves.
  pose proof (filter_length_le_layers (hasPayloadb layerMap) (selectedLeaves layers)).
  pose proof (countSelected_lower layers). lia.
Qed.

(** The counts published by an export that runs, and their total. *)
Lemma exportAssets_progress (v : Variant) (env : Env)
        (layerMap : gmap string RawLayer.t) (namingStyle : NamingStyle)
        (useFolderPrefix : bool) (layers : list PsdLayer) (st : Export) :
  layers <> [] ->
  abortOnZero v && (countSelected layers =? 0)%nat = false ->
  exists pre post,
    out (exportAssets v env layerMap namingStyle useFolderPrefix layers st).2
      = out st ++ pre ++ ZipGenerate :: post /\
    processedCounts pre = seq 1 (length (processedLeaves layerMap layers)) /\
    processedCounts post = [] /\
    Forall (progressTotal (countSelected layers)) pre /\
    (length (processedLeaves layerMap layers) <= countSelected layers)%nat.
Proof.
  intros Hne Hgo.
  destruct (exportAssets_runs v env layerMap namingStyle useFolderPrefix layers st Hne Hgo)
    as (o & tail & E & Htail).
  rewrite E. simpl.
  destruct (processLevel_walked v env layerMap namingStyle useFolderPrefix
              (countSelected layers) Zip.newZip layers Zip.newZip ""
              (0%nat, mkExport (dom st) ∅ (out st ++ [SetState exporting 0 MsgInit])))
    as [_ (made & Ho & Hc & Hg & Ht & _) _ _ _].
  simpl in Ho, Hc. rewrite Ho.
  exists ([SetState exporting 0 MsgInit] ++ made
          ++ [SetState exporting (packingProgress v) MsgPacking]), tail.
  split; [rewrite <- !app_assoc; reflexivity|].
  split; [rewrite !processedCounts_app, Hc; simpl; apply app_nil_r|].
  split.
  { destruct Htail as [->|[(s & p & _ & ->)|[_ ->]]]; reflexivity. }
  split; [|apply processedLeaves_le].
  apply Forall_app. split; [repeat constructor|].
  apply Forall_app. split; [exact Ht|repeat constructor].
Qed.

(** X20.  Progress with missing records: in an export that is not stopped
    by a guard, the counts published are 1, 2, ..., M, where M is the number
    of selected leaves whose raw record is in the lookup table (the others
    are skipped without a trace); every update carries the pre-count as its
    total, and M never exceeds it, so the progress never passes 100 percent. *)
Theorem export_progress_with_missing_records (v : Variant) (env : Env)
        (layerMap : gmap string RawLayer.t) (namingStyle : NamingStyle)
        (useFolderPrefix : bool) (layers : list PsdLayer) (st : Export) :
  layers <> [] ->
  abortOnZero v && (countSelected layers =? 0)%nat = false ->
  exists pre post,
    out (exportAssets v env layerMap namingStyle useFolderPrefix layers st).2
      = out st ++ pre ++ ZipGenerate :: post /\
    processedCounts pre = seq 1 (length (processedLeaves layerMap layers)) /\
    processedCounts post = [] /\
    Forall (progressTotal (countSelected layers)) pre /\
    (length (processedLeaves layerMap layers) <= countSelected layers)%nat.
Proof. apply exportAssets_progress. Qed.

Lemma export_progress_with_missing_records_witness :
  exists pre post,
    out (exportAssets appTsx benignEnv (delete "l1" mirrorMap) original false
                      mirrorTree emptyExport).2
      = out emptyExport ++ pre ++ ZipGenerate :: post /\
    processedCounts pre = seq 1 (length (processedLeaves (delete "l1" mirrorMap) mirrorTree)) /\
    processedCounts post = [] /\
    Forall (progressTotal (countSelected mirrorTree)) pre /\
    (length (processedLeaves (delete "l1" mirrorMap) mirrorTree)
     <= countSelected mirrorTree)%nat.
Proof.
  apply (export_progress_with_missing_records appTsx benignEnv (delete "l1" mirrorMap)
           original false mirrorTree emptyExport).
  - discriminate.
  - reflexivity.
Defined.



(** X22.  The export leaves the document intact: every surface that
    exists before [exportAssets] is the same after it, for every tree, table,
    host and version, whether the export runs, is stopped by a guard or
    fails; the canvases it creates are new ones. *)
Theorem export_leaves_surfaces (v : Variant) (env : Env)
        (layerMap : gmap string RawLayer.t) (namingStyle : NamingStyle)
        (useFolderPrefix : bool) (layers : list PsdLayer) (st : Export)
        (c : CanvasId) (s : Surface) :
  heap (dom st) !! c = Some s ->
  heap (dom (exportAssets v env layerMap namingStyle useFolderPrefix layers st).2) !! c
    = Some s.
Proof.
  intros Hs.
  destruct layers as [|l0 ls] eqn:El; [exact Hs|]. rewrite <- El.
  destruct (abortOnZero v && (countSelected layers =? 0)%nat) eqn:Hgo.
  - unfold exportAssets. rewrite El, <- El, Hgo. exact Hs.
  - destruct (exportAssets_runs v env layerMap namingStyle useFolderPrefix layers st)
      as (o & tail & E & _); [rewrite El; discriminate|exact Hgo|].
    rewrite E. simpl.
    destruct (processLevel_walked v env layerMap namingStyle useFolderPrefix
                (countSelected layers) Zip.newZip layers Zip.newZip ""
                (0%nat, mkExport (dom st) ∅ (out st ++ [SetState exporting 0 MsgInit])))
      as [_ _ Hh _ _].
    simpl in Hh. eapply prefix_lookup_Some; [exact Hs|exact Hh].
Qed.

Lemma export_leaves_surfaces_witness :
  heap (dom (exportAssets appTsx benignEnv mirrorMap original false mirrorTree
                          (mkExport (domWith (rectSurface 8 9 2 3 5 7)) ∅ [])).2) !! 0%nat
    = Some (rectSurface 8 9 2 3 5 7).
Proof.
  apply (export_leaves_surfaces appTsx benignEnv mirrorMap original false mirrorTree
           (mkExport (domWith (rectSurface 8 9 2 3 5 7)) ∅ []) 0%nat
           (rectSurface 8 9 2 3 5 7)).
  reflexivity.
Defined.

(* ================================================================== *)
(** ** The layout of the archive *)
(* ================================================================== *)

Lemma slashFree_app (a b : string) :
  slashFree (a ++ b) = slashFree a && slashFree b.
Proof. unfold slashFree. rewrite chars_app. apply forallb_app. Qed.

Lemma isFolderPath_slash (a b : string) : isFolderPath (a ++ b ++ "/") = true.
Proof.
  unfold isFolderPath. rewrite !chars_app, !rev_app_distr. reflexivity.
Qed.

Lemma heldFolder_mono (fs fs' : Zip.Files) (d : string) :
  (forall p, isFolderPath p = true -> fs !! p = Some Zip.Dir -> fs' !! p = Some Zip.Dir) ->
  heldFolder fs d -> heldFolder fs' d.
Proof.
  intros Hm [->|[Hp Hd]]; [left; reflexivity|right]. split; [exact Hp|].
  apply Hm; assumption.
Qed.

Section WalkLayout.
Variable v : Variant.
Variable env : Env.
Variable layerMap : gmap string RawLayer.t.
Variable namingStyle : NamingStyle.
Variable useFolderPrefix : bool.
Variable totalLayers : nat.
Variable zip : Zip.JSZip.
Hypothesis zip_is_root : Zip.root zip = ""%string.

#[local] Abbreviation walkLeaf := (processLeaf v env totalLayers zip).
#[local] Abbreviation walkLayer :=
  (processLayer v env layerMap namingStyle useFolderPrefix totalLayers zip).
#[local] Abbreviation walkLevel :=
  (processLevel v env layerMap namingStyle useFolderPrefix totalLayers zip).

(** What a processed leaf does to the archive: nothing, or one file entry
    in the scope the version writes into. *)
Lemma processLeaf_files (l : PsdLayer) (cleanName : string) (raw : RawLayer.t)
      (currentZip : Zip.JSZip) (prefixPath : string) (acc : nat * Export) :
  files (walkLeaf l cleanName raw currentZip prefixPath acc).2 = files acc.2 \/
  exists b,
    files (walkLeaf l cleanName raw currentZip prefixPath acc).2
    = Zip.file (if fileIntoCurrent v then currentZip else zip)
               (prefixPath ++ cleanName ++ ".png") b (files acc.2).
Proof.
  unfold processLeaf, runTrim, emit. simpl.
  destruct (trimCanvas (host env) (InLayer raw) (dom acc.2)) as [[[t|]|e] d];
    simpl.
  - destruct (toBlob env (surfaceOf d (TrimResult.canvas t))) as [blob|]; simpl.
    + right. exists blob.
      destruct (S acc.1 mod yieldEvery v =? 0)%nat; reflexivity.
    + left. destruct (S acc.1 mod yieldEvery v =? 0)%nat; reflexivity.
  - left. destruct (S acc.1 mod yieldEvery v =? 0)%nat; reflexivity.
  - left. destruct (S acc.1 mod yieldEvery v =? 0)%nat; reflexivity.
Qed.

(** The folder step leaves the file entries as they are. *)
Lemma folder_file_entries (z : Zip.JSZip) (cleanName : string) (fs : Zip.Files)
      (q : string) (b : Zip.Blob) :
  (Zip.folder z cleanName fs).2 !! q = Some (Zip.File b) -> fs !! q = Some (Zip.File b).
Proof.
  unfold Zip.folder, Zip.Files in *. simpl.
  case_match eqn:E; [auto|].
  destruct (decide ((Zip.root z ++ cleanName ++ "/")%string = q)) as [Heq|Hne].
  - subst q. rewrite lookup_insert_eq. discriminate.
  - rewrite lookup_insert_ne by exact Hne. auto.
Qed.

(** The folder step makes the archive hold the folder. *)
Lemma folder_held (z : Zip.JSZip) (cleanName : string) (fs : Zip.Files) :
  foldersAreDirs fs ->
  heldFolder (Zip.folder z cleanName fs).2 (Zip.root z ++ cleanName ++ "/").
Proof.
  intros Hinv. right. split; [apply isFolderPath_slash|].
  unfold Zip.folder, Zip.Files in *. simpl.
  case_match eqn:E.
  - rewrite E. f_equal. eapply Hinv; [apply isFolderPath_slash|exact E].
  - apply lookup_insert_eq.
Qed.

(** *** Versions that write with the root object *)

Lemma processLeaf_flat (l : PsdLayer) (cleanName : string) (raw : RawLayer.t)
      (z : Zip.JSZip) (p : string) (acc : nat * Export) :
  fileIntoCurrent v = false ->
  slashFree cleanName = true -> slashFree p = true ->
  filesAtRoot (files acc.2) ->
  filesAtRoot (files (walkLeaf l cleanName raw z p acc).2).
Proof.
  intros Hv Hc Hp Hinv.
  destruct (processLeaf_files l cleanName raw z p acc) as [->|[b ->]]; [exact Hinv|].
  rewrite Hv. intros q b'. unfold Zip.file, Zip.Files in *. rewrite zip_is_root.
  destruct (decide (("" ++ p ++ cleanName ++ ".png")%string = q)) as [Heq|Hne].
  - intros _. subst q. simpl. rewrite !slashFree_app, Hp, Hc. reflexivity.
  - rewrite lookup_insert_ne by exact Hne. apply Hinv.
Qed.

Lemma processLevel_flat_each (ls : list PsdLayer) :
  Forall (fun l => forall z p acc,
            slashFree p = true -> filesAtRoot (files acc.2) ->
            filesAtRoot (files (walkLayer l z p acc).2)) ls ->
  forall z p acc,
    slashFree p = true -> filesAtRoot (files acc.2) ->
    filesAtRoot (files (fold_left (fun a c => walkLayer c z p a) ls acc).2).
Proof.
  induction 1 as [|l ls Hl _ IH]; intros z p acc Hp Hinv; simpl.
  - exact Hinv.
  - apply IH; [exact Hp|]. apply Hl; assumption.
Qed.

Lemma processLayer_flat (l : PsdLayer) :
  fileIntoCurrent v = false ->
  forall z p acc,
    slashFree p = true -> filesAtRoot (files acc.2) ->
    filesAtRoot (files (walkLayer l z p acc).2).
Proof.
  intros Hv.
  assert (Hleaf : forall i n vis ch sel w h tp lf z p acc,
             slashFree p = true -> filesAtRoot (files acc.2) ->
             filesAtRoot
               (files (walkLayer (mkPsdLayer i n layer vis ch sel w h tp lf) z p acc).2)).
  { intros i n vis ch sel w h tp lf z p acc Hp Hinv.
    destruct ch; simpl; (destruct sel; simpl; [|exact Hinv]);
      (destruct (layerMap !! i) as [raw|]; simpl; [|exact Hinv]);
      (apply processLeaf_flat; auto; apply transformName_safe). }
  induction l as [l Hnone|l cs Hsome IH] using PsdLayer_ind; intros z p acc Hp Hinv.
  - destruct l as [i n t vis ch sel w h tp lf]. simpl in Hnone. subst ch.
    destruct t; [apply Hleaf; assumption|].
    simpl. intros q b Hq. apply folder_file_entries in Hq. eapply Hinv, Hq.
  - destruct l as [i n t vis ch sel w h tp lf]. simpl in Hsome. subst ch.
    destruct t; [apply Hleaf; assumption|].
    simpl. apply (processLevel_flat_each cs IH).
    + destruct useFolderPrefix; [|reflexivity].
      rewrite !slashFree_app, Hp.
      destruct (transformName_safe n namingStyle) as [_ ->]. reflexivity.
    + simpl. intros q b Hq. apply folder_file_entries in Hq. eapply Hinv, Hq.
Qed.

Lemma processLevel_flat (layers : list PsdLayer) (z : Zip.JSZip) (p : string)
      (acc : nat * Export) :
  fileIntoCurrent v = false ->
  slashFree p = true -> filesAtRoot (files acc.2) ->
  filesAtRoot (files (walkLevel layers z p acc).2).
Proof.
  intros Hv. apply processLevel_flat_each. apply Forall_forall. intros l _.
  apply processLayer_flat. exact Hv.
Qed.

(** *** Every version *)

Lemma processLeaf_folders (l : PsdLayer) (cleanName : string) (raw : RawLayer.t)
      (z : Zip.JSZip) (p : string) (acc : nat * Export) :
  slashFree cleanName = true -> slashFree p = true ->
  heldFolder (files acc.2) (Zip.root z) ->
  filesInFolders (files acc.2) ->
  filesInFolders (files (walkLeaf l cleanName raw z p acc).2).
Proof.
  intros Hc Hp Hz Hinv.
  destruct (processLeaf_walked v env totalLayers zip l cleanName raw z p acc)
    as [_ _ _ Hd _].
  intros q b' Hq.
  destruct (processLeaf_files l cleanName raw z p acc) as [E|[b E]].
  - rewrite E in Hq. destruct (Hinv q b' Hq) as (d & n & -> & Hn & Hh).
    exists d, n. repeat split; auto. eapply heldFolder_mono; [exact Hd|exact Hh].
  - rewrite E in Hq. unfold Zip.file, Zip.Files in *.
    set (t := if fileIntoCurrent v then z else zip) in *.
    destruct (decide ((Zip.root t ++ p ++ cleanName ++ ".png")%string = q)) as [Heq|Hne].
    + exists (Zip.root t), (p ++ cleanName ++ ".png")%string.
      split; [symmetry; exact Heq|].
      split; [rewrite !slashFree_app, Hp, Hc; reflexivity|].
      eapply heldFolder_mono; [exact Hd|].
      unfold t. destruct (fileIntoCurrent v); [exact Hz|].
      left. exact zip_is_root.
    + rewrite lookup_insert_ne in Hq by exact Hne.
      destruct (Hinv q b' Hq) as (d & n & -> & Hn & Hh).
      exists d, n. repeat split; auto. eapply heldFolder_mono; [exact Hd|exact Hh].
Qed.

Lemma processLevel_folders_each (ls : list PsdLayer) :
  Forall (fun l => forall z p acc,
            slashFree p = true ->
            heldFolder (files acc.2) (Zip.root z) ->
            foldersAreDirs (files acc.2) ->
            filesInFolders (files acc.2) ->
            filesInFolders (files (walkLayer l z p acc).2)) ls ->
  forall z p acc,
    slashFree p = true ->
    heldFolder (files acc.2) (Zip.root z) ->
    foldersAreDirs (files acc.2) ->
    filesInFolders (files acc.2) ->
    filesInFolders (files (fold_left (fun a c => walkLayer c z p a) ls acc).2).
Proof.
  induction 1 as [|l ls Hl _ IH]; intros z p acc Hp Hz Hdirs Hinv; simpl.
  - exact Hinv.
  - destruct (processLayer_walked v env layerMap namingStyle useFolderPrefix
                totalLayers zip l z p acc) as [_ _ _ Hd Hi].
    apply IH; [exact Hp| | |].
    + eapply heldFolder_mono; [exact Hd|exact Hz].
    + apply Hi, Hdirs.
    + apply Hl; assumption.
Qed.

Lemma folder_keeps_layout (z : Zip.JSZip) (cleanName : string) (fs : Zip.Files) :
  filesInFolders fs -> filesInFolders (Zip.folder z cleanName fs).2.
Proof.
  intros Hinv q b Hq. apply folder_file_entries in Hq.
  destruct (Hinv q b Hq) as (d & n & -> & Hn & Hh).
  exists d, n. repeat split; auto.
  eapply heldFolder_mono; [|exact Hh].
  intros k Hk Hdk. unfold Zip.folder, Zip.Files in *. simpl.
  case_match eqn:E; [exact Hdk|].
  destruct (decide ((Zip.root z ++ cleanName ++ "/")%string = k)) as [Heq|Hne].
  - subst k. congruence.
  - rewrite lookup_insert_ne by exact Hne. exact Hdk.
Qed.

Lemma processLayer_folders (l : PsdLayer) :
  forall z p acc,
    slashFree p = true ->
    heldFolder (files acc.2) (Zip.root z) ->
    foldersAreDirs (files acc.2) ->
    filesInFolders (files acc.2) ->
    filesInFolders (files (walkLayer l z p acc).2).
Proof.
  assert (Hleaf : forall i n vis ch sel w h tp lf z p acc,
             slashFree p = true ->
             heldFolder (files acc.2) (Zip.root z) ->
             filesInFolders (files acc.2) ->
             filesInFolders
               (files (walkLayer (mkPsdLayer i n layer vis ch sel w h tp lf) z p acc).2)).
  { intros i n vis ch sel w h tp lf z p acc Hp Hz Hinv.
    destruct ch; simpl; (destruct sel; simpl; [|exact Hinv]);
      (destruct (layerMap !! i) as [raw|]; simpl; [|exact Hinv]);
      (apply processLeaf_folders; auto; apply transformName_safe). }
  induction l as [l Hnone|l cs Hsome IH] using PsdLayer_ind;
    intros z p acc Hp Hz Hdirs Hinv.
  - destruct l as [i n t vis ch sel w h tp lf]. simpl in Hnone. subst ch.
    destruct t; [apply Hleaf; assumption|].
    simpl. apply folder_keeps_layout. exact Hinv.
  - destruct l as [i n t vis ch sel w h tp lf]. simpl in Hsome. subst ch.
    destruct t; [apply Hleaf; assumption|].
    simpl. apply (processLevel_folders_each cs IH).
    + destruct useFolderPrefix; [|reflexivity].
      rewrite !slashFree_app, Hp.
      destruct (transformName_safe n namingStyle) as [_ ->]. reflexivity.
    + simpl. apply folder_held. exact Hdirs.
    + simpl.
      destruct (folder_walked v totalLayers z (transformName n namingStyle) acc)
        as [_ _ _ _ Hi].
      apply Hi, Hdirs.
    + simpl. apply folder_keeps_layout. exact Hinv.
Qed.

Lemma processLevel_folders (layers : list PsdLayer) (z : Zip.JSZip) (p : string)
      (acc : nat * Export) :
  slashFree p = true ->
  heldFolder (files acc.2) (Zip.root z) ->
  foldersAreDirs (files acc.2) ->
  filesInFolders (files acc.2) ->
  filesInFolders (files (walkLevel layers z p acc).2).
Proof.
  apply processLevel_folders_each. apply Forall_forall. intros l _.
  apply processLayer_folders.
Qed.

End WalkLayout.

(* ================================================================== *)
(** ** The archive of an export *)
(* ================================================================== *)

Lemma foldersAreDirs_empty : foldersAreDirs ∅.
Proof. intros p e _ H. unfold Zip.Files in *. rewrite lookup_empty in H. discriminate. Qed.

Lemma filesAtRoot_empty : filesAtRoot ∅.
Proof. intros q b H. unfold Zip.Files in *. rewrite lookup_empty in H. discriminate. Qed.

Lemma filesInFolders_empty : filesInFolders ∅.
Proof. intros q b H. unfold Zip.Files in *. rewrite lookup_empty in H. discriminate. Qed.

(** The archive of an export of a tree that is not empty: empty when the
    zero check stops it, the archive of the walk otherwise. *)
Lemma exportAssets_files (v : Variant) (env : Env) (layerMap : gmap string RawLayer.t)
      (namingStyle : NamingStyle) (useFolderPrefix : bool)
      (layers : list PsdLayer) (st : Export) :
  layers <> [] ->
  files (exportAssets v env layerMap namingStyle useFolderPrefix layers st).2 = ∅ \/
  files (exportAssets v env layerMap namingStyle useFolderPrefix layers st).2
  = files (processLevel v env layerMap namingStyle useFolderPrefix
             (countSelected layers) Zip.newZip layers Zip.newZip ""
             (0%nat, mkExport (dom st) ∅ (out st ++ [SetState exporting 0 MsgInit]))).2.
Proof.
  intros Hne.
  destruct (abortOnZero v && (countSelected layers =? 0)%nat) eqn:Hgo.
  - left. unfold exportAssets. destruct layers; [contradiction|]. rewrite Hgo. reflexivity.
  - right.
    destruct (exportAssets_runs v env layerMap namingStyle useFolderPrefix layers st Hne Hgo)
      as (o & tail & E & _).
    rewrite E. reflexivity.
Qed.

(** X23.  The versions that write with the root object ([src/App.tsx] and
    part_001) never put a file into a folder: for every tree, table, host,
    naming style and prefix option, no file entry of the archive has a slash
    in its path.  The folders of the groups are made and stay empty. *)
Theorem export_files_at_root (v : Variant) (env : Env)
        (layerMap : gmap string RawLayer.t) (namingStyle : NamingStyle)
        (useFolderPrefix : bool) (layers : list PsdLayer) (st : Export) :
  fileIntoCurrent v = false ->
  layers <> [] ->
  filesAtRoot (files (exportAssets v env layerMap namingStyle useFolderPrefix layers st).2).
Proof.
  intros Hv Hne.
  destruct (exportAssets_files v env layerMap namingStyle useFolderPrefix layers st Hne)
    as [->| ->]; [apply filesAtRoot_empty|].
  apply processLevel_flat; [reflexivity|exact Hv|reflexivity|apply filesAtRoot_empty].
Qed.

Lemma export_files_at_root_witness :
  filesAtRoot (files (exportAssets appTsx benignEnv mirrorMap original true
                                   mirrorTree emptyExport).2).
Proof.
  apply (export_files_at_root appTsx benignEnv mirrorMap original true
           mirrorTree emptyExport).
  - reflexivity.
  - discriminate.
Defined.

(** X24.  The archive of every version is well laid out: each file entry is
    directly in the root or directly in a folder that the archive holds (its
    path is the path of that folder followed by a name without a slash), and
    every entry whose path ends with a slash is a folder entry: no file is
    ever stored over a folder. *)
Theorem export_files_in_held_folders (v : Variant) (env : Env)
        (layerMap : gmap string RawLayer.t) (namingStyle : NamingStyle)
        (useFolderPrefix : bool) (layers : list PsdLayer) (st : Export) :
  layers <> [] ->
  filesInFolders
    (files (exportAssets v env layerMap namingStyle useFolderPrefix layers st).2) /\
  foldersAreDirs
    (files (exportAssets v env layerMap namingStyle useFolderPrefix layers st).2).
Proof.
  intros Hne.
  destruct (exportAssets_files v env layerMap namingStyle useFolderPrefix layers st Hne)
    as [->| ->]; [split; [apply filesInFolders_empty|apply foldersAreDirs_empty]|].
  split.
  - apply processLevel_folders;
      [reflexivity|reflexivity|left; reflexivity
       |apply foldersAreDirs_empty|apply filesInFolders_empty].
  - destruct (processLevel_walked v env layerMap namingStyle useFolderPrefix
                (countSelected layers) Zip.newZip layers Zip.newZip ""
                (0%nat, mkExport (dom st) ∅ (out st ++ [SetState exporting 0 MsgInit])))
      as [_ _ _ _ Hi].
    apply Hi. apply foldersAreDirs_empty.
Qed.

Lemma export_files_in_held_folders_witness :
  filesInFolders
    (files (exportAssets part000 benignEnv mirrorMap original true mirrorTree
                         emptyExport).2) /\
  foldersAreDirs
    (files (exportAssets part000 benignEnv mirrorMap original true mirrorTree
                         emptyExport).2).
Proof.
  apply (export_files_in_held_folders part000 benignEnv mirrorMap original true
           mirrorTree emptyExport).
  discriminate.
Defined.



(** X26.  However the export of [src/App.tsx] goes for a tree that is not
    empty (done, nothing selected, or the archive could not be made), the
    last thing it shows is the status [ready] with the progress 100. *)
Theorem export_appTsx_ends_ready (env : Env) (layerMap : gmap string RawLayer.t)
        (namingStyle : NamingStyle) (useFolderPrefix : bool)
        (layers : list PsdLayer) (st : Export) :
  layers <> [] ->
  exists m,
    last (out (exportAssets appTsx env layerMap namingStyle useFolderPrefix layers st).2)
    = Some (SetState ready 100 m).
Proof.
  intros Hne.
  destruct (abortOnZero appTsx && (countSelected layers =? 0)%nat) eqn:Hgo.
  - exists MsgNothingSelected. unfold exportAssets.
    destruct layers; [contradiction|]. rewrite Hgo. unfold emit. simpl.
    apply last_snoc.
  - destruct (exportAssets_runs appTsx env layerMap namingStyle useFolderPrefix layers st
                Hne Hgo) as (o & tail & E & Htail).
    rewrite E. simpl.
    destruct Htail as [->|[(s & p & Hs & ->)|[Hs _]]].
    + exists MsgDone.
      change [SetState exporting 99 MsgPacking; ZipGenerate; Download; SetState ready 100 MsgDone]
        with ([SetState exporting 99 MsgPacking; ZipGenerate; Download]
                ++ [SetState ready 100 MsgDone]).
      rewrite app_assoc. apply last_snoc.
    + exists MsgInterrupted. simpl in Hs. inversion Hs. subst s p.
      change [SetState exporting 99 MsgPacking; ZipGenerate; SetState ready 100 MsgInterrupted]
        with ([SetState exporting 99 MsgPacking; ZipGenerate]
                ++ [SetState ready 100 MsgInterrupted]).
      rewrite app_assoc. apply last_snoc.
    + discriminate.
Qed.

Lemma export_appTsx_ends_ready_witness :
  exists m,
    last (out (exportAssets appTsx benignEnv mirrorMap original false mirrorTree
                            emptyExport).2)
    = Some (SetState ready 100 m).
Proof.
  apply (export_appTsx_ends_ready benignEnv mirrorMap original false mirrorTree emptyExport).
  discriminate.
Defined.

(* ================================================================== *)
(** ** Loading, then exporting *)
(* ================================================================== *)

Lemma processedLeaves_all (m : gmap string RawLayer.t) (layers : list PsdLayer) :
  Forall (hasPayload m) (selectedLeaves layers) ->
  processedLeaves m layers = selectedLeaves layers.
Proof.
  unfold processedLeaves. generalize (selectedLeaves layers). intros l H.
  induction H as [|x l Hx _ IH]; simpl; [reflexivity|].
  unfold hasPayloadb at 1. destruct Hx as [r ->]. rewrite IH. reflexivity.
Qed.

Lemma transformLayers_nonempty (randomId : nat -> string) (dfltName : string)
      (ls : list AgLayer) (st : nat * gmap string RawLayer.t) :
  ls <> [] -> (transformLayers randomId dfltName ls st).1 <> [].
Proof. destruct ls; [contradiction|]. intros _. simpl. discriminate. Qed.

(** X27.  Loading and exporting together: when the tree and the lookup
    table are the ones [transformLayers] makes from a decoded document, and
    the selection is left as loaded, no selected layer is skipped.  The
    counts published are 1, 2, ..., V and each update carries the total V,
    where V is the number of visible layers without children of the
    document: the last layer is announced as V of V. *)
Theorem load_then_export (v : Variant) (env : Env) (randomId : nat -> string)
        (dfltName : string) (namingStyle : NamingStyle) (useFolderPrefix : bool)
        (ls : list AgLayer) (st0 : nat * gmap string RawLayer.t) (ex : Export) :
  ls <> [] ->
  abortOnZero v && (list_sum (List.map visibleLeavesOf ls) =? 0)%nat = false ->
  exists pre post,
    out (exportAssets v env (transformLayers randomId dfltName ls st0).2.2
                      namingStyle useFolderPrefix
                      (transformLayers randomId dfltName ls st0).1 ex).2
      = out ex ++ pre ++ ZipGenerate :: post /\
    processedCounts pre = seq 1 (list_sum (List.map visibleLeavesOf ls)) /\
    processedCounts post = [] /\
    Forall (progressTotal (list_sum (List.map visibleLeavesOf ls))) pre.
Proof.
  intros Hne Hgo.
  destruct (loadAll_loaded randomId dfltName ls st0) as [W K N C D].
  assert (Hsel : Forall (hasPayload (transformLayers randomId dfltName ls st0).2.2)
                        (selectedLeaves (transformLayers randomId dfltName ls st0).1)).
  { rewrite Forall_forall in N. apply Forall_forall. intros x Hx. apply N.
    apply list_elem_of_In. apply list_elem_of_In in Hx.
    unfold selectedLeaves in Hx. apply in_flat_map in Hx as (c & Hc & Hx).
    apply in_flat_map. exists c. split; [exact Hc|].
    apply selectedLeavesOf_nodes. exact Hx. }
  assert (Hcount : countSelected (transformLayers randomId dfltName ls st0).1
                   = list_sum (List.map visibleLeavesOf ls)).
  { rewrite countSelected_wellFormed by exact W. exact C. }
  destruct (exportAssets_progress v env (transformLayers randomId dfltName ls st0).2.2
              namingStyle useFolderPrefix (transformLayers randomId dfltName ls st0).1 ex)
    as (pre & post & Ho & Hc & Hp & Ht & _).
  - apply transformLayers_nonempty. exact Hne.
  - rewrite Hcount. exact Hgo.
  - exists pre, post. rewrite processedLeaves_all in Hc by exact Hsel.
    rewrite Hcount in Ht. unfold selectedLeaves in Hc. rewrite C in Hc.
    repeat split; assumption.
Qed.

Lemma load_then_export_witness :
  exists pre post,
    out (exportAssets appTsx benignEnv (transformLayers idStream "Untitled" agDocument (0%nat, ∅)).2.2
                      original false
                      (transformLayers idStream "Untitled" agDocument (0%nat, ∅)).1
                      emptyExport).2
      = out emptyExport ++ pre ++ ZipGenerate :: post /\
    processedCounts pre = seq 1 (list_sum (List.map visibleLeavesOf agDocument)) /\
    processedCounts post = [] /\
    Forall (progressTotal (list_sum (List.map visibleLeavesOf agDocument))) pre.
Proof.
  apply (load_then_export appTsx benignEnv idStream "Untitled" original false
           agDocument (0%nat, ∅) emptyExport).
  - discriminate.
  - reflexivity.
Defined.
